(** * EXIFDataDailyReport: cycle segmentation of image capture times

    A shallow embedding of [EXIFDataDailyReport.py].  The script walks a
    folder tree, reads the DateTimeOriginal tag of every [.jpg] image,
    sorts the resulting records by time of day, cuts the sorted sequence
    into battery cycles at gaps of at least 60 seconds, and writes two
    such reports side by side.

    Conventions of the embedding:
    - Python [str] values are [string]s whose characters are the code
      points below 256 (Latin-1, as the tag text comes out of the image).
      White space is what [str.isspace] accepts among these code points;
      the digits of the [strptime] pattern are [0] to [9], the only
      decimal digits below 256; [str.lower] is taken on the ASCII
      letters, which is all that decides whether a name ends in [.jpg].
    - A [datetime] obtained from [strptime(_, '%H:%M:%S')] lies on
      1900-01-01 and is represented by its number of seconds since
      midnight; a [timedelta] is a number of seconds (both in [Z]).
    - The dictionaries built at lines 38-44 have a fixed set of keys plus
      the two keys added by the segmentation; they are records with two
      optional fields.
    - Exceptions that leave [process_folder] are the [Raise] outcome.
    - A [datetime] is always true in a condition, so [if cycle_start_time]
      tests whether the marker is set.
    - The folder tree and the content of the images are inputs of the
      model: a tree of named directories, and a function from image paths
      to what reading the image yields.  Paths are POSIX paths.
    - The progress bars and the console summary of lines 85-89 do not
      influence the result and are left out; the messages printed while
      reading the images are kept as events. *)

From Stdlib Require Import ZArith List String Ascii Bool Lia.
From Stdlib Require Import DecimalString DecimalPos DecimalZ.
From stdpp Require Import base list sorting.

Open Scope Z_scope.

(** ** Outcomes: a value, or an exception that propagates *)

Inductive exn := ValueError | IndexError.

Inductive outcome (A : Type) :=
  | Ok (a : A)
  | Raise (e : exn).
Arguments Ok {A} a.
Arguments Raise {A} e.

#[global] Instance outcome_bind : MBind outcome := fun A B k m =>
  match m with
  | Ok a => k a
  | Raise e => Raise e
  end.

(** Monadic left-to-right iteration: the body of a [for] loop threaded
    through the loop state. *)
Fixpoint for_each {A S} (body : A -> S -> outcome S) (l : list A) (s : S)
  : outcome S :=
  match l with
  | [] => Ok s
  | a :: l' => s' ← body a s; for_each body l' s'
  end.

Fixpoint map_outcome {A B} (f : A -> outcome B) (l : list A)
  : outcome (list B) :=
  match l with
  | [] => Ok []
  | a :: l' => b ← f a; bs ← map_outcome f l'; Ok (b :: bs)
  end.

(** ** Text helpers *)

Definition chars (s : string) : list ascii := list_ascii_of_string s.
Definition text (l : list ascii) : string := string_of_list_ascii l.

Definition code (c : ascii) : N := N_of_ascii c.

Definition in_range (lo hi : ascii) (c : ascii) : bool :=
  (code lo <=? code c)%N && (code c <=? code hi)%N.

Definition is_digit (c : ascii) : bool := in_range "0" "9" c.

Definition digit_val (c : ascii) : Z := Z.of_N (code c) - 48.

(** [%d] of a Python integer. *)
Definition str_int (z : Z) : string := NilZero.string_of_int (Z.to_int z).

(** [%02d] of a non-negative integer below 100 pads to two digits. *)
Definition str_02d (z : Z) : string :=
  if (0 <=? z) && (z <? 10) then ("0" ++ str_int z)%string else str_int z.

(** ** [datetime.strptime(s, '%H:%M:%S')] *)

(** The pattern compiled by [_strptime] for this format is
    [(?P<H>2[0-3]|[0-1]\d|\d):(?P<M>[0-5]\d|\d):(?P<S>6[0-1]|[0-5]\d|\d)],
    matched at the start of the string.  The separator is not a digit, so
    the first alternative that matches is the only one that can lead to a
    match; each group is therefore read deterministically. *)

Definition match_H (s : list ascii) : option (Z * list ascii) :=
  match s with
  | a :: b :: rest =>
      if (Ascii.eqb a "2" && in_range "0" "3" b)
         || (in_range "0" "1" a && is_digit b)
      then Some (10 * digit_val a + digit_val b, rest)
      else if is_digit a then Some (digit_val a, b :: rest) else None
  | [a] => if is_digit a then Some (digit_val a, []) else None
  | [] => None
  end.

Definition match_M (s : list ascii) : option (Z * list ascii) :=
  match s with
  | a :: b :: rest =>
      if in_range "0" "5" a && is_digit b
      then Some (10 * digit_val a + digit_val b, rest)
      else if is_digit a then Some (digit_val a, b :: rest) else None
  | [a] => if is_digit a then Some (digit_val a, []) else None
  | [] => None
  end.

Definition match_S (s : list ascii) : option (Z * list ascii) :=
  match s with
  | a :: b :: rest =>
      if (Ascii.eqb a "6" && in_range "0" "1" b)
         || (in_range "0" "5" a && is_digit b)
      then Some (10 * digit_val a + digit_val b, rest)
      else if is_digit a then Some (digit_val a, b :: rest) else None
  | [a] => if is_digit a then Some (digit_val a, []) else None
  | [] => None
  end.

Definition match_colon (s : list ascii) : option (list ascii) :=
  match s with
  | c :: rest => if Ascii.eqb c ":" then Some rest else None
  | [] => None
  end.

(** [ValueError] when the pattern does not match, when unconverted data
    remains after the match, or when the [datetime] constructor rejects
    the seconds (the pattern admits 60 and 61, the constructor does not). *)
Definition strptime (s : string) : outcome Z :=
  match match_H (chars s) with
  | None => Raise ValueError
  | Some (hh, s1) =>
    match match_colon s1 with
    | None => Raise ValueError
    | Some s2 =>
      match match_M s2 with
      | None => Raise ValueError
      | Some (mm, s3) =>
        match match_colon s3 with
        | None => Raise ValueError
        | Some s4 =>
          match match_S s4 with
          | None => Raise ValueError
          | Some (ss, []) =>
              if ss <=? 59 then Ok (3600 * hh + 60 * mm + ss)
              else Raise ValueError
          | Some (_, _ :: _) => Raise ValueError
          end
        end
      end
    end
  end.

(** ** [str(timedelta)] *)

(** A [timedelta] is normalised to days and seconds within the day;
    [str] prints [H:MM:SS], preceded by the day count when it is not 0. *)
Definition str_timedelta (d : Z) : string :=
  let days := d / 86400 in
  let seconds := d mod 86400 in
  let mm := seconds / 60 in
  let ss := seconds mod 60 in
  let hh := mm / 60 in
  let mm := mm mod 60 in
  let s := (str_int hh ++ ":" ++ str_02d mm ++ ":" ++ str_02d ss)%string in
  let plural := if Z.abs days =? 1 then EmptyString else "s"%string in
  if days =? 0 then s
  else (str_int days ++ " day" ++ plural ++ ", " ++ s)%string.

(** ** Image records *)

Record props := mk_props {
  DateTaken : string;
  TimeTaken : string;
  Image : string;
  Pole : string;
  Type_ : string;
  CycleCount : option string;
  CycleTotalHour : option string
}.

(** [d['CycleCount'] = v] and [d['CycleTotalHour'] = v]. *)
Definition set_CycleCount (v : string) (d : props) : props :=
  mk_props (DateTaken d) (TimeTaken d) (Image d) (Pole d) (Type_ d)
           (Some v) (CycleTotalHour d).

Definition set_CycleTotalHour (v : string) (d : props) : props :=
  mk_props (DateTaken d) (TimeTaken d) (Image d) (Pole d) (Type_ d)
           (CycleCount d) (Some v).

(** ** [metadata.sort(key=...)] *)

(** [list.sort] computes the key of every element first (an exception of
    the key function propagates), then sorts stably on the keys.  The
    result of a stable sort is unique; it is computed here by insertion. *)
Fixpoint insert_sorted {A} (x : Z * A) (l : list (Z * A)) : list (Z * A) :=
  match l with
  | [] => [x]
  | y :: l' => if x.1 <=? y.1 then x :: y :: l' else y :: insert_sorted x l'
  end.

Fixpoint stable_sort {A} (l : list (Z * A)) : list (Z * A) :=
  match l with
  | [] => []
  | x :: l' => insert_sorted x (stable_sort l')
  end.

Definition sort_key (x : props) : outcome Z := strptime (TimeTaken x).

Definition sort_metadata (metadata : list props) : outcome (list props) :=
  keys ← map_outcome sort_key metadata;
  Ok (map snd (stable_sort (combine keys metadata))).

(** ** The segmentation walk (lines 50-68) *)

(** The variables the loop reads and writes. *)
Record walk_state := mk_walk {
  metadata : list props;
  cycle_count : Z;
  cycle_start_time : option Z;
  total_cycle_duration : Z
}.

(** [metadata[i]], with Python's [IndexError] out of range. *)
Definition item (metadata : list props) (i : nat) : outcome props :=
  match metadata !! i with
  | Some d => Ok d
  | None => Raise IndexError
  end.

(** [metadata[-1]]. *)
Definition last_item (metadata : list props) : outcome props :=
  item metadata (length metadata - 1)%nat.

(** [datetime.strptime(metadata[i]['TimeTaken'], '%H:%M:%S')]. *)
Definition time_at (metadata : list props) (i : nat) : outcome Z :=
  d ← item metadata i; strptime (TimeTaken d).

(** [f'CYCLE {cycle_count}']. *)
Definition cycle_label (cycle_count : Z) : string :=
  ("CYCLE " ++ str_int cycle_count)%string.

(** One iteration of the loop of line 54, for index [i]. *)
Definition walk_body (i : nat) (st : walk_state) : outcome walk_state :=
  t_i ← time_at (metadata st) i;
  t_prev ← time_at (metadata st) (i - 1);
  let time_difference := t_i - t_prev in
  if 60 <=? time_difference then
    let md := alter (set_CycleCount (cycle_label (cycle_count st))) (i - 1)%nat
                    (metadata st) in
    match cycle_start_time st with
    | Some start =>
        cycle_end_time ← time_at md (i - 1);
        let cycle_duration := cycle_end_time - start in
        Ok (mk_walk
              (alter (set_CycleTotalHour (str_timedelta cycle_duration))
                     (i - 1)%nat md)
              (cycle_count st + 1) None
              (total_cycle_duration st + cycle_duration))
    | None =>
        Ok (mk_walk md (cycle_count st + 1) None (total_cycle_duration st))
    end
  else
    match cycle_start_time st with
    | Some _ => Ok st
    | None =>
        start ← time_at (metadata st) (i - 1);
        Ok (mk_walk (metadata st) (cycle_count st) (Some start)
                    (total_cycle_duration st))
    end.

(** [for i in range(1, len(metadata))], from the initial values of
    lines 51-53. *)
Definition walk (metadata : list props) : outcome walk_state :=
  for_each walk_body (seq 1 (length metadata - 1))
           (mk_walk metadata 1 None 0).

(** Lines 70-76: the cycle still open after the walk is closed on the
    last record. *)
Definition close_last (st : walk_state) : outcome walk_state :=
  match cycle_start_time st with
  | Some start =>
      last ← last_item (metadata st);
      cycle_end_time ← strptime (TimeTaken last);
      let cycle_duration := cycle_end_time - start in
      let n := (length (metadata st) - 1)%nat in
      let md := alter (set_CycleCount (cycle_label (cycle_count st))) n
                      (metadata st) in
      let md := alter (set_CycleTotalHour (str_timedelta cycle_duration)) n
                      md in
      Ok (mk_walk md (cycle_count st) (Some start)
                  (total_cycle_duration st + cycle_duration))
  | None => Ok st
  end.

(** Lines 47-76: sort, walk, close. *)
Definition segment (metadata : list props) : outcome walk_state :=
  sorted ← sort_metadata metadata;
  st ← walk sorted;
  close_last st.

(** A record that does not carry the two keys the walk adds. *)
Definition fresh (date time image pole folder_type : string) : props :=
  mk_props date time image pole folder_type None None.

(** ** The walk as a function of the times alone

    The loop reads the records only through their times, and writes only
    the two cycle keys.  Its effect is therefore an annotation per record,
    computed from the list of times; the lemmas below show that the
    index loop refines this recursion. *)

(** The scalar loop variables. *)
Record counters := mk_counters {
  count : Z;
  start : option Z;
  total : Z
}.

Definition initial : counters := mk_counters 1 None 0.

Definition with_metadata (md : list props) (c : counters) : walk_state :=
  mk_walk md (count c) (start c) (total c).

(** What one record receives: the number of its cycle label and its
    cycle duration, each of them optional. *)
Definition annotation : Type := option Z * option Z.

Definition apply_annotation (a : annotation) (d : props) : props :=
  let d := match a.1 with
           | Some n => set_CycleCount (cycle_label n) d
           | None => d
           end in
  match a.2 with
  | Some dur => set_CycleTotalHour (str_timedelta dur) d
  | None => d
  end.

(** The pair (predecessor at [t_prev], current at [t]). *)
Definition step_counters (t_prev t : Z) (c : counters) : counters :=
  if 60 <=? t - t_prev then
    mk_counters (count c + 1) None
                (match start c with
                 | Some s => total c + (t_prev - s)
                 | None => total c
                 end)
  else
    mk_counters (count c)
                (match start c with Some s => Some s | None => Some t_prev end)
                (total c).

Definition step_annotation (t_prev t : Z) (c : counters) : annotation :=
  if 60 <=? t - t_prev then
    (Some (count c), (fun s => t_prev - s) <$> start c)
  else (None, None).

Fixpoint walk_annotations (t_prev : Z) (ts : list Z) (c : counters)
  : list annotation :=
  match ts with
  | [] => []
  | t :: ts' =>
      step_annotation t_prev t c
        :: walk_annotations t ts' (step_counters t_prev t c)
  end.

Fixpoint walk_counters (t_prev : Z) (ts : list Z) (c : counters) : counters :=
  match ts with
  | [] => c
  | t :: ts' => walk_counters t ts' (step_counters t_prev t c)
  end.

Definition close_annotation (t_last : Z) (c : counters) : annotation :=
  match start c with
  | Some s => (Some (count c), Some (t_last - s))
  | None => (None, None)
  end.

Definition close_counters (t_last : Z) (c : counters) : counters :=
  match start c with
  | Some s => mk_counters (count c) (Some s) (total c + (t_last - s))
  | None => c
  end.

(** Annotations and final counters of a whole run over the times [ts]. *)
Definition annotations (ts : list Z) : list annotation :=
  match ts with
  | [] => []
  | t0 :: ts' =>
      walk_annotations t0 ts' initial
        ++ [close_annotation (List.last ts' t0) (walk_counters t0 ts' initial)]
  end.

Definition final_counters (ts : list Z) : counters :=
  match ts with
  | [] => initial
  | t0 :: ts' =>
      close_counters (List.last ts' t0) (walk_counters t0 ts' initial)
  end.

(** [annotate as l] applies the annotations to the front of [l] and leaves
    the records beyond them as they are. *)
Fixpoint annotate (anns : list annotation) (l : list props) : list props :=
  match anns, l with
  | a :: anns', d :: l' => apply_annotation a d :: annotate anns' l'
  | _, _ => l
  end.

(** The records [l] carry the times [ts]. *)
Definition times_of (l : list props) (ts : list Z) : Prop :=
  Forall2 (fun d t => strptime (TimeTaken d) = Ok t) l ts.

(** The sorted records and their times, for records with the keys [keys]. *)
Definition sorted_records (keys : list Z) (md : list props) : list props :=
  map snd (stable_sort (combine keys md)).

Definition sorted_times (keys : list Z) (md : list props) : list Z :=
  map fst (stable_sort (combine keys md)).


(** ** The report (lines 78-104) *)

(** A CSV cell holds a string or an integer. *)
Inductive cell := Str (s : string) | Int (z : Z).

Definition row : Type := list cell.

(** [d.get(key, '')]. *)
Definition get_or_empty (v : option string) : string :=
  match v with
  | Some s => s
  | None => EmptyString
  end.

Definition data_row (data : props) : row :=
  [ Str (DateTaken data); Str (TimeTaken data); Str (Image data);
    Str (Pole data); Str (get_or_empty (CycleCount data));
    Str (get_or_empty (CycleTotalHour data)) ].

Definition header_row : row :=
  [ Str "DateTaken"; Str "TimeTaken"; Str "Image"; Str "Pole";
    Str "CycleCount"; Str "CycleTotalHour" ].

(** Line 79. *)
Definition total_time_difference (metadata : list props) : outcome Z :=
  last ← last_item metadata;
  t_last ← strptime (TimeTaken last);
  first ← item metadata 0;
  t_first ← strptime (TimeTaken first);
  Ok (t_last - t_first).

(** What [process_folder] computes from the metadata list: the walk state
    after closing, the local [total_time_difference], and the summary it
    returns. *)
Record analysis := mk_analysis {
  final : walk_state;
  time_difference : Z;
  summary : list row
}.

Definition analyse (folder_type : string) (n_folders : nat)
    (records : list props) : outcome analysis :=
  st ← segment records;
  ttd ← total_time_difference (metadata st);
  first ← item (metadata st) 0;
  last ← last_item (metadata st);
  Ok (mk_analysis st ttd
        ([ [ Str (folder_type ++ " Data Capture (Pole)");
             Int (Z.of_nat n_folders) ];
           [ Str (folder_type ++ " Start Time"); Str (TimeTaken first) ];
           [ Str (folder_type ++ " End Time"); Str (TimeTaken last) ];
           [ Str (folder_type ++ " Hours Data Capture (By Battery Cycle)");
             Str (str_timedelta (total_cycle_duration st)) ];
           [ Str (folder_type ++ " Battery Cycles"); Int (cycle_count st) ];
           [];
           header_row ]
         ++ map data_row (metadata st))).

(** ** Paths (POSIX [os.path]) *)

Definition sep : ascii := "/".

Definition is_sep (c : ascii) : bool := Ascii.eqb c sep.

Fixpoint drop_while (p : ascii -> bool) (s : list ascii) : list ascii :=
  match s with
  | [] => []
  | c :: s' => if p c then drop_while p s' else s
  end.

Fixpoint take_while (p : ascii -> bool) (s : list ascii) : list ascii :=
  match s with
  | [] => []
  | c :: s' => if p c then c :: take_while p s' else []
  end.

Definition starts_with_sep (s : list ascii) : bool :=
  match s with
  | c :: _ => is_sep c
  | [] => false
  end.

Definition ends_with_sep (s : list ascii) : bool := starts_with_sep (rev s).

(** [os.path.join(a, b)]. *)
Definition join (a b : string) : string :=
  if starts_with_sep (chars b) then b
  else if (length (chars a) =? 0)%nat || ends_with_sep (chars a)
       then (a ++ b)%string
       else (a ++ "/" ++ b)%string.

(** The part of a reversed path up to and including its last separator,
    still reversed: [p[:p.rfind('/') + 1]]. *)
Definition rev_head (p : string) : list ascii :=
  drop_while (fun c => negb (is_sep c)) (rev (chars p)).

(** [os.path.dirname(p)]: the head, without its trailing separators
    unless it consists of separators only. *)
Definition dirname (p : string) : string :=
  let head := rev_head p in
  if forallb is_sep head then text (rev head)
  else text (rev (drop_while is_sep head)).

(** [os.path.basename(p)]: [p[p.rfind('/') + 1:]]. *)
Definition basename (p : string) : string :=
  text (rev (take_while (fun c => negb (is_sep c)) (rev (chars p)))).

(** ** Strings *)

(** [str.lower] on ASCII letters. *)
Definition lower_char (c : ascii) : ascii :=
  if in_range "A" "Z" c then ascii_of_N (code c + 32) else c.

Definition lower (s : string) : string := text (map lower_char (chars s)).

Fixpoint starts_with (prefix s : list ascii) : bool :=
  match prefix, s with
  | [], _ => true
  | c :: prefix', c' :: s' => Ascii.eqb c c' && starts_with prefix' s'
  | _ :: _, [] => false
  end.

(** [s.endswith(suffix)]. *)
Definition endswith (s suffix : string) : bool :=
  starts_with (rev (chars suffix)) (rev (chars s)).

(** The code points below 256 for which [str.isspace] holds: U+0009 to
    U+000D, U+001C to U+0020, U+0085 and U+00A0. *)
Definition is_space (c : ascii) : bool :=
  in_range "009" "013" c || in_range "028" " " c
  || Ascii.eqb c "133" || Ascii.eqb c "160".

(** [s.split()]: the maximal runs of non-space characters. *)
Fixpoint split_ws (word : list ascii) (s : list ascii) : list string :=
  match s with
  | [] => match word with [] => [] | _ => [text (rev word)] end
  | c :: s' =>
      if is_space c then
        match word with
        | [] => split_ws [] s'
        | _ => text (rev word) :: split_ws [] s'
        end
      else split_ws (c :: word) s'
  end.

Definition split (s : string) : list string := split_ws [] (chars s).

(** ** The folder tree and [os.walk] *)

(** A directory: its subdirectories and its files, by name, in the order
    the operating system lists them. *)
Unset Elimination Schemes.
Inductive dir := Dir (subdirs : list (string * dir)) (files : list string).
Set Elimination Schemes.

(** [os.walk(top)]: the triples [(root, dirs, files)], a directory before
    its subdirectories. *)
Fixpoint os_walk (top : string) (t : dir)
  : list (string * list string * list string) :=
  match t with
  | Dir subdirs files =>
      (top, map fst subdirs, files)
        :: (fix walk_subdirs (l : list (string * dir)) :=
              match l with
              | [] => []
              | (name, sub) :: l' =>
                  os_walk (join top name) sub ++ walk_subdirs l'
              end) subdirs
  end.

(** Lines 16-18. *)
Definition is_jpg (f : string) : bool := endswith (lower f) ".jpg".

Definition list_folders (walked : list (string * list string * list string))
  : list string :=
  flat_map (fun '(root, dirs, _) => map (join root) dirs) walked.

Definition list_images (walked : list (string * list string * list string))
  : list string :=
  flat_map (fun '(root, _, files) =>
              map (join root) (List.filter is_jpg files))
           walked.

(** ** Reading the metadata (lines 21-45) *)

(** What the [try] block of lines 29-31 does for one image: it raises
    (the image cannot be opened, or it has no EXIF data), or it yields the
    value of tag 36867, if the image has one. *)
Inductive read_result :=
  | ReadError (cause : string)
  | DateTimeOriginal (value : option string).

(** What the run does that is visible outside its result. *)
Inductive event :=
  | Opened (image_path : string)
  | Printed (line : string)
  | Traceback.

Record scan_state := mk_scan {
  found : list props;
  trace : list event
}.

Definition error_line (image_path cause : string) : string :=
  ("Error processing image '" ++ image_path ++ "': " ++ cause)%string.

(** The body of the loop of line 25. *)
Definition process_image (read : string -> read_result)
    (folder folder_type image_path : string) (st : scan_state)
  : outcome scan_state :=
  let '(date_taken, events) :=
    match read image_path with
    | ReadError cause =>
        (None, [Opened image_path; Printed (error_line image_path cause);
                Traceback])
    | DateTimeOriginal v => (v, [Opened image_path])
    end in
  let st := mk_scan (found st) (trace st ++ events) in
  match date_taken with
  | None => Ok st
  | Some EmptyString => Ok st
  | Some date_taken =>
      match split date_taken with
      | [date; time] =>
          Ok (mk_scan
                (found st
                   ++ [fresh date time (basename image_path) (basename folder)
                             folder_type])
                (trace st))
      | _ => Raise ValueError
      end
  end.

(** Line 23. *)
Definition folder_images (images : list string) (folder : string)
  : list string :=
  List.filter (fun image => String.eqb (dirname image) folder) images.

(** The body of the loop of line 21. *)
Definition process_one_folder (read : string -> read_result)
    (images : list string) (folder_type folder : string) (st : scan_state)
  : outcome scan_state :=
  for_each (process_image read folder folder_type)
           (folder_images images folder) st.

Definition scan (read : string -> read_result) (parent_folder : string)
    (tree : dir) (folder_type : string) : outcome scan_state :=
  let walked := os_walk parent_folder tree in
  for_each (process_one_folder read (list_images walked) folder_type)
           (list_folders walked) (mk_scan [] []).

(** [process_folder(parent_folder, folder_type)], for the tree found at
    [parent_folder] and the given content of its images. *)
Definition process_folder (read : string -> read_result)
    (parent_folder : string) (tree : dir) (folder_type : string)
  : outcome (list row) :=
  st ← scan read parent_folder tree folder_type;
  a ← analyse folder_type
        (length (list_folders (os_walk parent_folder tree))) (found st);
  Ok (summary a).

(** ** Writing the two reports side by side (lines 126-146) *)

Definition empty_row : row := repeat (Str EmptyString) 6.

(** [while len(summary) < max_length: summary.append([""] * 6)].  Every
    iteration makes the list one longer, so [max_length] iterations are
    always enough; the function is given that many. *)
Fixpoint pad_loop (fuel max_length : nat) (summary : list row) : list row :=
  match fuel with
  | O => summary
  | S fuel' =>
      if (length summary <? max_length)%nat
      then pad_loop fuel' max_length (summary ++ [empty_row])
      else summary
  end.

Definition pad (max_length : nat) (summary : list row) : list row :=
  pad_loop max_length max_length summary.

(** The rows handed to [csv_writer.writerow], in order. *)
Definition written_rows (visual_summary thermal_summary : list row)
  : list row :=
  let max_length := Nat.max (length visual_summary) (length thermal_summary) in
  let visual_summary := pad max_length visual_summary in
  let thermal_summary := pad max_length thermal_summary in
  zip_with (fun v_row t_row => v_row ++ repeat (Str EmptyString) 2 ++ t_row)
           visual_summary thermal_summary.

(** ** Cycles, in the words of the specification *)

(** The number of adjacent pairs of [t_prev :: ts] whose gap is at least
    60 seconds. *)
Fixpoint large_gaps (t_prev : Z) (ts : list Z) : Z :=
  match ts with
  | [] => 0
  | t :: ts' => (if 60 <=? t - t_prev then 1 else 0) + large_gaps t ts'
  end.

Definition boundaries (ts : list Z) : Z :=
  match ts with
  | [] => 0
  | t0 :: ts' => large_gaps t0 ts'
  end.

(** The boundaries crossed before the pair [(i-1, i)] is compared: those
    among the first [i] times. *)
Definition boundaries_before (ts : list Z) (i : nat) : Z :=
  boundaries (take i ts).

(** The cycles of a sequence of times: its maximal runs of consecutive
    times whose adjacent gaps are all below 60 seconds. *)
Fixpoint cycles_from (t_prev : Z) (ts : list Z) : list (list Z) :=
  match ts with
  | [] => [[t_prev]]
  | t :: ts' =>
      if 60 <=? t - t_prev then [t_prev] :: cycles_from t ts'
      else match cycles_from t ts' with
           | c :: cs => (t_prev :: c) :: cs
           | [] => [[t_prev]]
           end
  end.

Definition cycles (ts : list Z) : list (list Z) :=
  match ts with
  | [] => []
  | t0 :: ts' => cycles_from t0 ts'
  end.

(** A cycle of at least two records lasts from its first time, where the
    first gap below 60 seconds sets the marker, to its last time; a cycle
    of one record never sets the marker and has no duration. *)
Definition cycle_duration (c : list Z) : option Z :=
  match c with
  | t0 :: _ :: _ => Some (List.last c t0 - t0)
  | _ => None
  end.

(** The marker of a cycle: the time before its first gap below 60
    seconds, which is its first time; unset for a cycle of one record. *)
Definition cycle_marker (c : list Z) : option Z :=
  match c with
  | t0 :: _ :: _ => Some t0
  | _ => None
  end.

(** The duration of a cycle is assigned to its last record. *)
Definition cycle_durations (c : list Z) : list (option Z) :=
  repeat None (length c - 1) ++ [cycle_duration c].

Definition assigned_durations (ts : list Z) : list (option Z) :=
  flat_map cycle_durations (cycles ts).

Definition sum_durations (ds : list (option Z)) : Z :=
  fold_right (fun d acc => default 0 d + acc) 0 ds.

(** A record keeps the value it had under a key unless one is assigned. *)
Definition assigned {A} (f : A -> string) (a : option A) (old : option string)
  : option string :=
  match a with
  | Some x => Some (f x)
  | None => old
  end.

(** ** The scenario of the specification

    Four records of one pole, taken at 09:00:00, 09:00:30, 09:05:00 and
    09:05:20. *)

Definition scenario : list props :=
  [ fresh "2024:01:01" "09:00:00" "a.jpg" "P1" "VISUAL";
    fresh "2024:01:01" "09:00:30" "b.jpg" "P1" "VISUAL";
    fresh "2024:01:01" "09:05:00" "c.jpg" "P1" "VISUAL";
    fresh "2024:01:01" "09:05:20" "d.jpg" "P1" "VISUAL" ].

Definition scenario_times : list Z := [32400; 32430; 32700; 32720].


(** A record of one image alone in its category. *)
Definition single : props :=
  fresh "2024:01:01" "09:00:00" "a.jpg" "P1" "VISUAL".

(** The three columns of a record that the segmentation is about. *)
Definition cycle_columns (d : props)
  : string * option string * option string :=
  (TimeTaken d, CycleCount d, CycleTotalHour d).

(** ** Auxiliary: durations of a cycle entered with the marker set

    When the walk reaches the first record of a run with the marker already
    set to [s], the run closes with the duration measured from [s]. *)
Definition run_durations (marker : option Z) (c : list Z) : list (option Z) :=
  repeat None (length c - 1)
    ++ [match marker with
        | Some s => Some (List.last c 0 - s)
        | None => cycle_duration c
        end].

(** A record read without the labels and durations of an earlier run. *)
Definition clear_labels (d : props) : props :=
  mk_props (DateTaken d) (TimeTaken d) (Image d) (Pole d) (Type_ d) None None.

Definition unlabeled (d : props) : Prop :=
  CycleCount d = None /\ CycleTotalHour d = None.

(** ** The scan as a function of the images it visits *)

(** The image paths the two nested loops iterate over, in order. *)
Definition visited (parent_folder : string) (tree : dir) : list string :=
  let walked := os_walk parent_folder tree in
  flat_map (folder_images (list_images walked)) (list_folders walked).

(** Whether line 36 can unpack the value read for an image: a missing or
    empty value is never split, any other value must have two fields. *)
Definition fields_ok (read : string -> read_result) (image_path : string)
  : bool :=
  match read image_path with
  | DateTimeOriginal (Some (String _ _ as v)) =>
      match split v with
      | [_; _] => true
      | _ => false
      end
  | _ => true
  end.

(** The events of one image. *)
Definition events_of (read : string -> read_result) (image_path : string)
  : list event :=
  match read image_path with
  | ReadError cause =>
      [Opened image_path; Printed (error_line image_path cause); Traceback]
  | DateTimeOriginal _ => [Opened image_path]
  end.

(** The records of one image found in [folder]: one or none. *)
Definition records_in (read : string -> read_result)
    (folder_type folder image_path : string) : list props :=
  match read image_path with
  | DateTimeOriginal (Some (String _ _ as v)) =>
      match split v with
      | [date; time] =>
          [fresh date time (basename image_path) (basename folder) folder_type]
      | _ => []
      end
  | _ => []
  end.

Definition records_of (read : string -> read_result)
    (folder_type image_path : string) : list props :=
  records_in read folder_type (dirname image_path) image_path.

Definition extend (st : scan_state) (records : list props)
    (events : list event) : scan_state :=
  mk_scan (found st ++ records) (trace st ++ events).

(** ** Well-formed trees *)

(** A file or directory name is not empty and holds no separator. *)
Definition name_ok (name : string) : bool :=
  negb (length (chars name) =? 0)%nat
  && forallb (fun c => negb (is_sep c)) (chars name).

Fixpoint wf_dir (t : dir) : bool :=
  match t with
  | Dir subdirs files =>
      forallb name_ok files
      && (fix wf_subdirs (l : list (string * dir)) : bool :=
            match l with
            | [] => true
            | (name, sub) :: l' => name_ok name && wf_dir sub && wf_subdirs l'
            end) subdirs
  end.

(** Induction on a tree, with the property available for every
    subdirectory. *)
Fixpoint dir_ind (P : dir -> Prop)
    (step : forall subdirs files,
        Forall (fun nd : string * dir => P nd.2) subdirs ->
        P (Dir subdirs files))
    (t : dir) : P t :=
  match t with
  | Dir subdirs files =>
      step subdirs files
        ((fix all (l : list (string * dir))
            : Forall (fun nd : string * dir => P nd.2) l :=
            match l with
            | [] => @List.Forall_nil _ _
            | (name, sub) :: l' =>
                @List.Forall_cons _ _ (name, sub) l' (dir_ind P step sub)
                                  (all l')
            end) subdirs)
  end.

(** The files of the root folder itself. *)
Definition root_files (t : dir) : list string :=
  match t with
  | Dir _ files => files
  end.

(** ** A small tree

    A root with one image of its own and one pole folder holding three
    images. *)
Definition survey : dir :=
  Dir [ ("P1"%string, Dir [] ["a.jpg"; "b.JPG"; "c.jpg"; "notes.txt"]%string) ]
      ["top.jpg"%string].

(** [a.jpg] cannot be opened, [b.JPG] has no DateTimeOriginal tag, [c.jpg]
    and [top.jpg] carry a date and a time. *)
Definition survey_read (image_path : string) : read_result :=
  if String.eqb image_path "root/P1/a.jpg"
  then ReadError "cannot identify image file"
  else if String.eqb image_path "root/P1/b.JPG" then DateTimeOriginal None
  else DateTimeOriginal (Some "2024:01:01 09:00:00"%string).

(** Every image lacks the tag. *)
Definition no_tag (image_path : string) : read_result := DateTimeOriginal None.



(** ** Further definitions: labels in order, and equal times *)

(** The numbers [n], [n + 1], ... ([k] of them). *)
Fixpoint count_from (n : Z) (k : nat) : list Z :=
  match k with
  | O => []
  | S k' => n :: count_from (n + 1) k'
  end.

(** Whether the record carries the time [t]. *)
Definition has_time (t : Z) (d : props) : bool :=
  match strptime (TimeTaken d) with
  | Ok t' => t' =? t
  | Raise _ => false
  end.

(** Three records, two of them taken at the same time. *)
Definition ties : list props :=
  [ fresh "2024:01:01" "09:00:30" "x.jpg" "P1" "VISUAL";
    fresh "2024:01:01" "09:00:00" "a.jpg" "P1" "VISUAL";
    fresh "2024:01:01" "09:00:30" "y.jpg" "P2" "VISUAL" ].

(** ** Lines 80-82: the time difference as [HH:MM:SS]

    [total_seconds()] is a float with an integral value far below 2^53, on
    which [divmod] and [int] are exact; the computation is the one on
    integers.  [{:02}] pads to two characters. *)
Definition total_time_formatted (total_time_difference : Z) : string :=
  let total_hours := total_time_difference / 3600 in
  let remainder := total_time_difference mod 3600 in
  let total_minutes := remainder / 60 in
  let total_seconds := remainder mod 60 in
  (str_02d total_hours ++ ":" ++ str_02d total_minutes ++ ":"
     ++ str_02d total_seconds)%string.

(** Whether [{:02}] prints [x] as a tens digit up to 5 and a units
    digit. *)
Definition two_digits (x : Z) : bool :=
  match chars (str_02d x) with
  | [a; b] =>
      in_range "0" "5" a && is_digit b && (10 * digit_val a + digit_val b =? x)
  | _ => false
  end.

(** Whether [{:02}] prints [x] as the two digits of an hour. *)
Definition hour_digits (x : Z) : bool :=
  match chars (str_02d x) with
  | [a; b] =>
      ((Ascii.eqb a "2" && in_range "0" "3" b)
       || (in_range "0" "1" a && is_digit b))
      && (10 * digit_val a + digit_val b =? x)
  | _ => false
  end.

(** ** Fields of a tag value *)

(** A non-empty string without white space. *)
Definition word (s : string) : bool :=
  negb (length (chars s) =? 0)%nat
  && forallb (fun c => negb (is_space c)) (chars s).

(** A string of white space only. *)
Definition blank (s : string) : bool := forallb is_space (chars s).

(** ** Counting the directories of a tree *)

(** The number of directories below the root, at any depth. *)
Fixpoint count_dirs (t : dir) : nat :=
  match t with
  | Dir subdirs _ =>
      (fix count_subdirs (l : list (string * dir)) : nat :=
         match l with
         | [] => O
         | (_, sub) :: l' => S (count_dirs sub + count_subdirs l')
         end) subdirs
  end.

(** A path that is not empty and does not end in a separator. *)
Definition ends_in_name (p : string) : Prop :=
  exists x xs, rev (chars p) = x :: xs /\ is_sep x = false.

(** ** The command line (lines 106-146)

    The standard input is the list of the lines still to be read;
    [input()] takes the first and raises [EOFError] when none is left.
    The machine is a function from the paths that exist to the directory
    found there (a path that exists is taken to name a directory). *)

(** [s.strip()]. *)
Definition strip (s : string) : string :=
  text (rev (drop_while is_space (rev (drop_while is_space (chars s))))).

Definition is_empty (s : string) : bool :=
  match s with
  | EmptyString => true
  | String _ _ => false
  end.

(** The outcome of the loop of lines 109-117 for one category: the folder
    chosen, if any, and the input left; or the end of the input. *)
Inductive prompted :=
  | Answered (folder_path : option string) (rest : list string)
  | NoMoreInput.

Fixpoint prompt_folder (path_exists : string -> bool) (stdin : list string)
  : prompted :=
  match stdin with
  | [] => NoMoreInput
  | line :: rest =>
      let folder_path := strip line in
      if is_empty folder_path then Answered None rest
      else if path_exists folder_path then Answered (Some folder_path) rest
      else prompt_folder path_exists rest
  end.

(** How the script ends. *)
Inductive run :=
  | Exited (status : Z)
  | Uncaught (e : exn)
  | InputEnded
  | Wrote (csv_file_path : string) (rows : list row).

(** Lines 123-124, for one category. *)
Definition summary_of (machine : string -> option dir)
    (read : string -> read_result) (folder_type : string)
    (folder_path : option string) : outcome (list row) :=
  match folder_path with
  | None => Ok []
  | Some parent_folder =>
      match machine parent_folder with
      | Some tree => process_folder read parent_folder tree folder_type
      | None => a ← analyse folder_type 0 []; Ok (summary a)
      end
  end.

Definition main (machine : string -> option dir)
    (read : string -> read_result) (stdin : list string) : run :=
  let path_exists p :=
    match machine p with Some _ => true | None => false end in
  match prompt_folder path_exists stdin with
  | NoMoreInput => InputEnded
  | Answered visual stdin =>
    match prompt_folder path_exists stdin with
    | NoMoreInput => InputEnded
    | Answered thermal stdin =>
      match visual, thermal with
      | None, None => Exited 1
      | _, _ =>
        match summary_of machine read "VISUAL" visual with
        | Raise e => Uncaught e
        | Ok visual_summary =>
          match summary_of machine read "THERMAL" thermal with
          | Raise e => Uncaught e
          | Ok thermal_summary =>
            match stdin with
            | [] => InputEnded
            | line :: _ =>
                let csv_file_name := strip line in
                if is_empty csv_file_name then Exited 1
                else Wrote (csv_file_name ++ ".csv")
                           (written_rows visual_summary thermal_summary)
            end
          end
        end
      end
    end
  end.

(** A line that makes the loop ask again: not blank, and not the path of
    anything that exists. *)
Definition rejected (path_exists : string -> bool) (line : string) : Prop :=
  is_empty (strip line) = false /\ path_exists (strip line) = false.

(** [os.path.exists] on the machine. *)
Definition exists_on (machine : string -> option dir) (p : string) : bool :=
  match machine p with Some _ => true | None => false end.

(** What a line that ends the loop of one category chooses: nothing when
    it is blank, else the line without the white space around it. *)
Definition chosen (line : string) : option string :=
  if is_empty (strip line) then None else Some (strip line).

(** A machine on which only [root] exists, holding the small tree. *)
Definition survey_machine (p : string) : option dir :=
  if String.eqb p "root" then Some survey else None.

(** The report of the small tree read with [survey_read]. *)
Definition survey_report : list row :=
  [ [Str "VISUAL Data Capture (Pole)"; Int 1];
    [Str "VISUAL Start Time"; Str "09:00:00"];
    [Str "VISUAL End Time"; Str "09:00:00"];
    [Str "VISUAL Hours Data Capture (By Battery Cycle)"; Str "0:00:00"];
    [Str "VISUAL Battery Cycles"; Int 1];
    [];
    header_row;
    [Str "2024:01:01"; Str "09:00:00"; Str "c.jpg"; Str "P1"; Str EmptyString;
     Str EmptyString] ].

(** A line that holds a no-break space and a next-line character only. *)
Definition nbsp_line : string := String "160" (String "133" EmptyString).

(** ** Reading printed values back *)

(** The integer written by a string of decimal digits, with the decimal
    reader of the standard library. *)
Definition read_decimal (s : string) : option Z :=
  Z.of_int <$> NilZero.int_of_string s.

(** Whether [%d] prints the hour [x] as one digit, or as the two digits of
    an hour. *)
Definition hour_text (x : Z) : bool :=
  match chars (str_int x) with
  | [a] => is_digit a && (digit_val a =? x)
  | [a; b] =>
      ((Ascii.eqb a "2" && in_range "0" "3" b)
       || (in_range "0" "1" a && is_digit b))
      && (10 * digit_val a + digit_val b =? x)
  | _ => false
  end.

(** A time of day, or a duration of less than a day. *)
Definition within_a_day (t : Z) : Prop := 0 <= t < 86400.

(** Every image carries a date and a time separated by a no-break
    space. *)
Definition nbsp_read (image_path : string) : read_result :=
  DateTimeOriginal (Some ("2024:01:01" ++ String "160" "09:00:30")%string).
(** * Proofs *)

(** ** Texts and times of day *)

Lemma chars_append a b : chars (a ++ b) = chars a ++ chars b.
Proof.
  induction a as [|c a IH]; simpl; [done|].
  unfold chars in *. simpl. by rewrite IH.
Qed.

Lemma chars_text l : chars (text l) = l.
Proof. apply list_ascii_of_string_of_list_ascii. Qed.

Lemma in_range_bounds lo hi c :
  in_range lo hi c = true -> (code lo <= code c <= code hi)%N.
Proof.
  unfold in_range. intros H. apply andb_true_iff in H as [H1 H2].
  apply N.leb_le in H1, H2. lia.
Qed.

Lemma is_digit_val c : is_digit c = true -> 0 <= digit_val c <= 9.
Proof.
  intros H. apply in_range_bounds in H. unfold digit_val.
  change (code "0") with 48%N in H. change (code "9") with 57%N in H. lia.
Qed.

Lemma ascii_eqb_val a b : Ascii.eqb a b = true -> code a = code b.
Proof. intros H. apply Ascii.eqb_eq in H. by subst. Qed.

Ltac digit_bounds :=
  repeat match goal with
  | H : _ && _ = true |- _ => apply andb_true_iff in H as [? ?]
  | H : is_digit _ = true |- _ => apply is_digit_val in H
  | H : in_range _ _ _ = true |- _ =>
      apply in_range_bounds in H; cbn in H
  | H : Ascii.eqb _ _ = true |- _ => apply ascii_eqb_val in H; cbn in H
  end.

Lemma match_H_range s h rest : match_H s = Some (h, rest) -> 0 <= h <= 23.
Proof.
  unfold match_H. destruct s as [|a [|b s]]; [done| |].
  - destruct (is_digit a) eqn:Ha; [|done]. intros [= <- <-].
    apply is_digit_val in Ha. lia.
  - destruct (_ || _) eqn:Hab.
    + intros [= <- <-]. apply orb_true_iff in Hab as [Hab|Hab];
        digit_bounds; unfold digit_val in *; lia.
    + destruct (is_digit a) eqn:Ha; [|done]. intros [= <- <-].
      apply is_digit_val in Ha. lia.
Qed.

Lemma match_M_range s m rest : match_M s = Some (m, rest) -> 0 <= m <= 59.
Proof.
  unfold match_M. destruct s as [|a [|b s]]; [done| |].
  - destruct (is_digit a) eqn:Ha; [|done]. intros [= <- <-].
    apply is_digit_val in Ha. lia.
  - destruct (_ && _) eqn:Hab.
    + intros [= <- <-]. digit_bounds; unfold digit_val in *; lia.
    + destruct (is_digit a) eqn:Ha; [|done]. intros [= <- <-].
      apply is_digit_val in Ha. lia.
Qed.

Lemma match_S_range s x rest : match_S s = Some (x, rest) -> 0 <= x.
Proof.
  unfold match_S. destruct s as [|a [|b s]]; [done| |].
  - destruct (is_digit a) eqn:Ha; [|done]. intros [= <- <-].
    apply is_digit_val in Ha. lia.
  - destruct (_ || _) eqn:Hab.
    + intros [= <- <-]. apply orb_true_iff in Hab as [Hab|Hab];
        digit_bounds; unfold digit_val in *; lia.
    + destruct (is_digit a) eqn:Ha; [|done]. intros [= <- <-].
      apply is_digit_val in Ha. lia.
Qed.

(** Whatever string [strptime] accepts, the time it returns lies within
    one day; the seconds 60 and 61, which the pattern admits, are
    refused. *)
Lemma strptime_within_a_day (s : string) (t : Z) :
  strptime s = Ok t -> 0 <= t < 86400.
Proof.
  unfold strptime.
  destruct (match_H (chars s)) as [[hh s1]|] eqn:HH; [|done].
  destruct (match_colon s1) as [s2|]; [|done].
  destruct (match_M s2) as [[mm s3]|] eqn:HM; [|done].
  destruct (match_colon s3) as [s4|]; [|done].
  destruct (match_S s4) as [[ss [|c s5]]|] eqn:HS; [|done|done].
  destruct (ss <=? 59) eqn:Hss; [|done]. intros [= <-].
  apply Z.leb_le in Hss. apply match_H_range in HH.
  apply match_M_range in HM. apply match_S_range in HS. lia.
Qed.

Lemma two_digits_below_60 x : 0 <= x < 60 -> two_digits x = true.
Proof.
  intros Hx.
  assert (Hall : forallb two_digits (map Z.of_nat (seq 0 60)) = true)
    by (vm_compute; reflexivity).
  apply (proj1 (forallb_forall _ _) Hall). apply in_map_iff.
  exists (Z.to_nat x). split; [lia|]. apply in_seq. lia.
Qed.

Lemma hour_digits_below_24 x : 0 <= x < 24 -> hour_digits x = true.
Proof.
  intros Hx.
  assert (Hall : forallb hour_digits (map Z.of_nat (seq 0 24)) = true)
    by (vm_compute; reflexivity).
  apply (proj1 (forallb_forall _ _) Hall). apply in_map_iff.
  exists (Z.to_nat x). split; [lia|]. apply in_seq. lia.
Qed.

Lemma strptime_formatted h m x :
  0 <= h < 24 -> 0 <= m < 60 -> 0 <= x < 60 ->
  strptime (str_02d h ++ ":" ++ str_02d m ++ ":" ++ str_02d x)
  = Ok (3600 * h + 60 * m + x).
Proof.
  intros Hh Hm Hx.
  pose proof (hour_digits_below_24 h Hh) as Hhd.
  pose proof (two_digits_below_60 m Hm) as Hmd.
  pose proof (two_digits_below_60 x Hx) as Hxd.
  unfold hour_digits, two_digits in *. unfold strptime.
  rewrite !chars_append.
  destruct (chars (str_02d h)) as [|a [|b [|? ?]]]; try done.
  destruct (chars (str_02d m)) as [|c [|d [|? ?]]]; try done.
  destruct (chars (str_02d x)) as [|e [|f [|? ?]]]; try done.
  apply andb_true_iff in Hhd as [Hh1 Hh2].
  apply andb_true_iff in Hmd as [Hm1 Hm2].
  apply andb_true_iff in Hxd as [Hx1 Hx2].
  apply Z.eqb_eq in Hh2, Hm2, Hx2.
  change (chars ":") with [":"%char]. cbn [app match_H]. rewrite Hh1.
  cbn [match_colon]. change (Ascii.eqb ":" ":") with true.
  cbn [match_M]. rewrite Hm1. cbn [match_colon].
  change (Ascii.eqb ":" ":") with true. cbn [match_S].
  rewrite Hx1, orb_true_r, Hh2, Hm2, Hx2.
  destruct (x <=? 59) eqn:Hle; [done | lia].
Qed.

Lemma times_of_within_a_day l ts :
  times_of l ts -> Forall (fun t => 0 <= t < 86400) ts.
Proof.
  induction 1 as [|d t l ts Hd Hl IH]; constructor; [|done].
  by apply (strptime_within_a_day (TimeTaken d)).
Qed.

(** [%d] prints an integer in decimal: the decimal reader returns it. *)
Lemma read_decimal_str_int z : read_decimal (str_int z) = Some z.
Proof.
  unfold read_decimal, str_int. rewrite NilZero.isi.
  - cbn. f_equal. apply DecimalZ.of_to.
  - destruct z as [|p|p]; simpl; try discriminate.
    intros [= H]. by apply DecimalPos.Unsigned.to_uint_nonnil in H.
  - destruct z as [|p|p]; simpl; try discriminate.
    intros [= H]. by apply DecimalPos.Unsigned.to_uint_nonnil in H.
Qed.

(** The label of cycle [n] is the word CYCLE, a space, and [n] in
    decimal. *)
Lemma cycle_label_text n :
  exists digits,
    cycle_label n = ("CYCLE " ++ digits)%string
    /\ read_decimal digits = Some n.
Proof. exists (str_int n). split; [done | apply read_decimal_str_int]. Qed.

Lemma hour_text_below_24 x : 0 <= x < 24 -> hour_text x = true.
Proof.
  intros Hx.
  assert (Hall : forallb hour_text (map Z.of_nat (seq 0 24)) = true)
    by (vm_compute; reflexivity).
  apply (proj1 (forallb_forall _ _) Hall). apply in_map_iff.
  exists (Z.to_nat x). split; [lia|]. apply in_seq. lia.
Qed.

(** [strptime] reads a time whose hour is printed without padding. *)
Lemma strptime_printed h m x :
  0 <= h < 24 -> 0 <= m < 60 -> 0 <= x < 60 ->
  strptime (str_int h ++ ":" ++ str_02d m ++ ":" ++ str_02d x)
  = Ok (3600 * h + 60 * m + x).
Proof.
  intros Hh Hm Hx.
  pose proof (hour_text_below_24 h Hh) as Hhd.
  pose proof (two_digits_below_60 m Hm) as Hmd.
  pose proof (two_digits_below_60 x Hx) as Hxd.
  unfold hour_text, two_digits in *. unfold strptime.
  rewrite !chars_append.
  destruct (chars (str_02d m)) as [|c [|d [|? ?]]]; try done.
  destruct (chars (str_02d x)) as [|e [|f [|? ?]]]; try done.
  apply andb_true_iff in Hmd as [Hm1 Hm2].
  apply andb_true_iff in Hxd as [Hx1 Hx2].
  apply Z.eqb_eq in Hm2, Hx2.
  change (chars ":") with [":"%char].
  assert (HH : match_H (chars (str_int h) ++ [":"%char] ++ [c; d]
                          ++ [":"%char] ++ [e; f])
               = Some (h, [":"%char] ++ [c; d] ++ [":"%char] ++ [e; f])).
  { destruct (chars (str_int h)) as [|a [|b [|? ?]]]; try done.
    - apply andb_true_iff in Hhd as [Ha Hv]. apply Z.eqb_eq in Hv.
      cbn [app match_H]. change (is_digit ":") with false.
      change (in_range "0" "3" ":") with false.
      rewrite !andb_false_r. cbn [orb]. by rewrite Ha, Hv.
    - apply andb_true_iff in Hhd as [Hab Hv]. apply Z.eqb_eq in Hv.
      cbn [app match_H]. by rewrite Hab, Hv. }
  rewrite HH. cbn [app match_colon]. change (Ascii.eqb ":" ":") with true.
  cbn [match_M]. rewrite Hm1. cbn [match_colon].
  change (Ascii.eqb ":" ":") with true. cbn [match_S].
  rewrite Hx1, orb_true_r, Hm2, Hx2.
  destruct (x <=? 59) eqn:Hle; [done | lia].
Qed.

(** [str] of a duration of less than a day is read back by [strptime]
    as the same number of seconds. *)
Lemma str_timedelta_reads_back d :
  within_a_day d -> strptime (str_timedelta d) = Ok d.
Proof.
  unfold within_a_day. intros Hd. unfold str_timedelta.
  rewrite (Z.div_small d 86400), (Z.mod_small d 86400) by lia.
  change (0 =? 0) with true. cbv iota.
  pose proof (Z.div_mod d 60). pose proof (Z.div_mod (d / 60) 60).
  pose proof (Z.mod_pos_bound d 60). pose proof (Z.mod_pos_bound (d / 60) 60).
  assert (0 <= d / 60 < 1440)
    by (split; [apply Z.div_pos; lia | apply Z.div_lt_upper_bound; lia]).
  assert (0 <= d / 60 / 60 < 24)
    by (split; [apply Z.div_pos; lia | apply Z.div_lt_upper_bound; lia]).
  rewrite strptime_printed by lia. f_equal. lia.
Qed.
(** ** Basic facts *)

(** The four shapes of an annotation. *)
Ltac case_annotation a := destruct a as [[?|] [?|]].

Lemma bind_Ok {A B} (a : A) (k : A -> outcome B) : (Ok a ≫= k) = k a.
Proof. reflexivity. Qed.

Lemma TimeTaken_set_CycleCount v d :
  TimeTaken (set_CycleCount v d) = TimeTaken d.
Proof. reflexivity. Qed.

Lemma TimeTaken_set_CycleTotalHour v d :
  TimeTaken (set_CycleTotalHour v d) = TimeTaken d.
Proof. reflexivity. Qed.

Lemma TimeTaken_apply_annotation a d :
  TimeTaken (apply_annotation a d) = TimeTaken d.
Proof. case_annotation a; reflexivity. Qed.

Lemma item_middle (pre : list props) d l :
  item (pre ++ d :: l) (length pre) = Ok d.
Proof. unfold item. by rewrite list_lookup_middle. Qed.

Lemma item_middle_S (pre : list props) d e l :
  item (pre ++ d :: e :: l) (S (length pre)) = Ok e.
Proof.
  unfold item.
  replace (pre ++ d :: e :: l) with ((pre ++ [d]) ++ e :: l)
    by (by rewrite <- app_assoc).
  rewrite list_lookup_middle; [done | rewrite length_app; simpl; lia].
Qed.

Lemma alter_middle (f : props -> props) (pre : list props) d l :
  alter f (length pre) (pre ++ d :: l) = pre ++ f d :: l.
Proof. induction pre as [|x pre IH]; simpl; [done | f_equal; exact IH]. Qed.

(** ** The index loop refines the recursion on times *)

Lemma walk_body_middle pre d e l t_prev t c :
  strptime (TimeTaken d) = Ok t_prev ->
  strptime (TimeTaken e) = Ok t ->
  walk_body (S (length pre)) (with_metadata (pre ++ d :: e :: l) c)
  = Ok (with_metadata
          (pre ++ apply_annotation (step_annotation t_prev t c) d :: e :: l)
          (step_counters t_prev t c)).
Proof.
  intros Hd He. unfold walk_body, time_at.
  cbn [metadata with_metadata cycle_count cycle_start_time
       total_cycle_duration].
  replace (S (length pre) - 1)%nat with (length pre) by lia.
  rewrite item_middle_S, item_middle, !bind_Ok, He, Hd, !bind_Ok.
  unfold step_annotation, step_counters.
  destruct (60 <=? t - t_prev) eqn:Hgap.
  - rewrite alter_middle. destruct (start c) as [s|] eqn:Hs.
    + rewrite item_middle, bind_Ok, TimeTaken_set_CycleCount, Hd, bind_Ok.
      rewrite alter_middle. reflexivity.
    + reflexivity.
  - destruct (start c) as [s|] eqn:Hs.
    + unfold with_metadata. rewrite Hs. reflexivity.
    + unfold with_metadata. reflexivity.
Qed.

Lemma walk_loop_refines l : forall pre d t_prev ts c,
  strptime (TimeTaken d) = Ok t_prev ->
  times_of l ts ->
  for_each walk_body (seq (S (length pre)) (length l))
           (with_metadata (pre ++ d :: l) c)
  = Ok (with_metadata (pre ++ annotate (walk_annotations t_prev ts c) (d :: l))
                      (walk_counters t_prev ts c)).
Proof.
  induction l as [|e l IH]; intros pre d t_prev ts c Hd Hts.
  - inversion Hts; subst. reflexivity.
  - inversion Hts as [|? t ? ts' He Hts']; subst.
    cbn [length seq for_each].
    rewrite (walk_body_middle _ _ _ _ _ _ _ Hd He), bind_Ok.
    set (d' := apply_annotation (step_annotation t_prev t c) d).
    replace (pre ++ d' :: e :: l) with ((pre ++ [d']) ++ e :: l)
      by (by rewrite <- app_assoc).
    replace (S (S (length pre))) with (S (length (pre ++ [d'])))
      by (rewrite length_app; simpl; lia).
    rewrite (IH _ _ _ _ _ He Hts'). rewrite <- app_assoc. reflexivity.
Qed.

Lemma walk_refines d l t0 ts :
  times_of (d :: l) (t0 :: ts) ->
  walk (d :: l)
  = Ok (with_metadata (annotate (walk_annotations t0 ts initial) (d :: l))
                      (walk_counters t0 ts initial)).
Proof.
  intros H. inversion H; subst. unfold walk.
  replace (length (d :: l) - 1)%nat with (length l) by (simpl; lia).
  by apply (walk_loop_refines l [] d t0 ts initial).
Qed.

(** ** Closing the last cycle *)

Lemma length_walk_annotations ts : forall t_prev c,
  length (walk_annotations t_prev ts c) = length ts.
Proof. induction ts as [|t ts IH]; intros; simpl; [done | by rewrite IH]. Qed.

Lemma annotate_nil l : annotate [] l = l.
Proof. by destruct l. Qed.

Lemma annotate_app anns : forall anns2 front back,
  length anns = length front ->
  annotate (anns ++ anns2) (front ++ back)
  = annotate anns front ++ annotate anns2 back.
Proof.
  induction anns as [|a anns IH]; intros anns2 [|d front] back Hlen;
    simpl in *; try discriminate.
  - reflexivity.
  - f_equal. apply IH. lia.
Qed.

Lemma length_annotate anns : forall l, length (annotate anns l) = length l.
Proof.
  induction anns as [|a anns IH]; intros [|d l]; simpl; try done.
  by rewrite IH.
Qed.

Lemma close_last_snoc front d t c :
  strptime (TimeTaken d) = Ok t ->
  close_last (with_metadata (front ++ [d]) c)
  = Ok (with_metadata (front ++ [apply_annotation (close_annotation t c) d])
                      (close_counters t c)).
Proof.
  intros Hd. unfold close_last, last_item, close_annotation, close_counters.
  cbn [metadata with_metadata cycle_count cycle_start_time
       total_cycle_duration].
  destruct (start c) as [s|] eqn:Hs.
  - replace (length (front ++ [d]) - 1)%nat with (length front)
      by (rewrite length_app; simpl; lia).
    rewrite item_middle, bind_Ok, Hd, bind_Ok, !alter_middle. reflexivity.
  - unfold with_metadata. rewrite Hs. reflexivity.
Qed.

Lemma times_of_last l ts : times_of l ts -> forall d t,
  strptime (TimeTaken d) = Ok t ->
  strptime (TimeTaken (List.last l d)) = Ok (List.last ts t).
Proof.
  induction 1 as [|e t' l ts He Hl IH]; intros d t Hd; [exact Hd|].
  destruct Hl as [|e2 t2 l ts He2 Hl]; [exact He|].
  change (strptime (TimeTaken (List.last (e2 :: l) d))
          = Ok (List.last (t2 :: ts) t)).
  apply IH, Hd.
Qed.

Lemma times_of_length l ts : times_of l ts -> length l = length ts.
Proof. apply Forall2_length. Qed.

(** The walk followed by the closing step, on records that all carry a
    readable time. *)
Lemma walk_close_refines l ts :
  times_of l ts ->
  walk l ≫= close_last
  = Ok (with_metadata (annotate (annotations ts) l) (final_counters ts)).
Proof.
  intros H. destruct H as [|d t0 l ts Hd Hl].
  - reflexivity.
  - rewrite (walk_refines d l t0 ts) by (by constructor).
    rewrite bind_Ok. unfold annotations, final_counters.
    assert (Hne : d :: l <> []) by discriminate.
    destruct (exists_last Hne) as (front & e & Heq). rewrite Heq.
    assert (Hlen : length (walk_annotations t0 ts initial) = length front).
    { rewrite length_walk_annotations, <- (times_of_length _ _ Hl).
      apply (f_equal length) in Heq. rewrite length_app in Heq.
      simpl in Heq. lia. }
    rewrite <- (app_nil_r (walk_annotations t0 ts initial)) at 1.
    rewrite !annotate_app by exact Hlen. rewrite annotate_nil.
    assert (He : strptime (TimeTaken e) = Ok (List.last ts t0)).
    { pose proof (times_of_last _ _ Hl d t0 Hd) as Hlast.
      replace e with (List.last l d); [exact Hlast|].
      transitivity (List.last (d :: l) d); [by destruct l|].
      rewrite Heq. apply last_last. }
    rewrite (close_last_snoc _ _ _ _ He). reflexivity.
Qed.

(** ** Sorting *)

Lemma map_outcome_times_of l : forall keys,
  map_outcome sort_key l = Ok keys <-> times_of l keys.
Proof.
  induction l as [|d l IH]; intros keys; cbn [map_outcome].
  - split; [intros [= <-]; constructor | by inversion 1].
  - unfold sort_key at 2. destruct (strptime (TimeTaken d)) as [t|] eqn:Hd.
    + rewrite bind_Ok. destruct (map_outcome sort_key l) as [ks|] eqn:Hl.
      * rewrite bind_Ok. split.
        -- intros [= <-]. constructor; [done | by apply IH].
        -- inversion 1 as [|? ? ? ? Ht Hks]; subst.
           apply IH in Hks. congruence.
      * split; [discriminate|]. inversion 1 as [|? ? ? ? Ht Hks]; subst.
        apply IH in Hks. discriminate.
    + split; [discriminate|]. inversion 1; congruence.
Qed.

Lemma insert_sorted_perm {A} (x : Z * A) l : insert_sorted x l ≡ₚ x :: l.
Proof.
  induction l as [|y l IH]; simpl; [done|].
  destruct (x.1 <=? y.1); [done|]. rewrite IH. apply Permutation_swap.
Qed.

Lemma stable_sort_perm {A} (l : list (Z * A)) : stable_sort l ≡ₚ l.
Proof.
  induction l as [|x l IH]; simpl; [done|].
  by rewrite insert_sorted_perm, IH.
Qed.

Lemma insert_sorted_Sorted {A} (x : Z * A) l :
  Sorted Z.le (map fst l) -> Sorted Z.le (map fst (insert_sorted x l)).
Proof.
  induction l as [|y l IH]; simpl; intros Hs.
  - repeat constructor.
  - destruct (x.1 <=? y.1) eqn:Hxy; simpl.
    + constructor; [exact Hs | constructor; lia].
    + inversion Hs as [|? ? Hs' Hhd]; subst. constructor; [by apply IH|].
      destruct l as [|z l]; simpl.
      * constructor. lia.
      * destruct (x.1 <=? z.1); simpl; constructor;
          [lia | inversion Hhd; subst; done].
Qed.

Lemma stable_sort_Sorted {A} (l : list (Z * A)) :
  Sorted Z.le (map fst (stable_sort l)).
Proof.
  induction l as [|x l IH]; simpl; [constructor|].
  by apply insert_sorted_Sorted.
Qed.

(** A list that is already in order is left as it is. *)
Lemma stable_sort_sorted {A} (l : list (Z * A)) :
  Sorted Z.le (map fst l) -> stable_sort l = l.
Proof.
  induction l as [|x l IH]; simpl; intros Hs; [done|].
  inversion Hs as [|? ? Hs' Hhd]; subst. rewrite IH by done.
  destruct l as [|y l]; simpl; [done|].
  inversion Hhd; subst. destruct (x.1 <=? y.1) eqn:Hxy; [done | lia].
Qed.

(** ** Sort, walk and close together *)

Lemma combine_times_of l ts :
  times_of l ts ->
  Forall (fun kd : Z * props => strptime (TimeTaken kd.2) = Ok kd.1)
         (combine ts l).
Proof. induction 1; simpl; constructor; done. Qed.

Lemma times_of_pairs (ps : list (Z * props)) :
  Forall (fun kd : Z * props => strptime (TimeTaken kd.2) = Ok kd.1) ps ->
  times_of (map snd ps) (map fst ps).
Proof. induction 1; simpl; constructor; done. Qed.

Lemma combine_fst_snd l ts :
  times_of l ts ->
  map fst (combine ts l) = ts /\ map snd (combine ts l) = l.
Proof.
  induction 1 as [|d t l ts Hd Hl [IH1 IH2]]; simpl; [done|].
  by rewrite IH1, IH2.
Qed.

Lemma sort_metadata_refines md keys :
  times_of md keys ->
  sort_metadata md = Ok (sorted_records keys md)
  /\ times_of (sorted_records keys md) (sorted_times keys md)
  /\ Sorted Z.le (sorted_times keys md).
Proof.
  intros H. unfold sort_metadata.
  rewrite (proj2 (map_outcome_times_of md keys) H), bind_Ok.
  split; [done|]. split; [|apply stable_sort_Sorted].
  apply times_of_pairs.
  eapply Permutation_Forall; [symmetry; apply stable_sort_perm|].
  by apply combine_times_of.
Qed.

Lemma sort_metadata_sorted l ts :
  times_of l ts -> Sorted Z.le ts -> sort_metadata l = Ok l.
Proof.
  intros H Hs. destruct (sort_metadata_refines l ts H) as (-> & _ & _).
  unfold sorted_records. destruct (combine_fst_snd l ts H) as [H1 H2].
  rewrite stable_sort_sorted by (by rewrite H1). by rewrite H2.
Qed.

Lemma segment_refines md keys :
  times_of md keys ->
  segment md
  = Ok (with_metadata
          (annotate (annotations (sorted_times keys md))
                    (sorted_records keys md))
          (final_counters (sorted_times keys md))).
Proof.
  intros H. destruct (sort_metadata_refines md keys H) as (Hsort & Ht & _).
  unfold segment. rewrite Hsort, bind_Ok.
  exact (walk_close_refines _ _ Ht).
Qed.

Lemma segment_sorted l ts :
  times_of l ts -> Sorted Z.le ts ->
  segment l
  = Ok (with_metadata (annotate (annotations ts) l) (final_counters ts)).
Proof.
  intros H Hs. unfold segment.
  rewrite (sort_metadata_sorted l ts H Hs), bind_Ok.
  exact (walk_close_refines _ _ H).
Qed.

Lemma times_of_annotate anns : forall l ts,
  times_of l ts -> times_of (annotate anns l) ts.
Proof.
  induction anns as [|a anns IH]; intros l ts H; [by rewrite annotate_nil|].
  destruct H as [|d t l ts Hd Hl]; simpl; constructor.
  - by rewrite TimeTaken_apply_annotation.
  - by apply IH.
Qed.

(** ** Labels assigned by the walk *)

Lemma count_walk_counters ts : forall t_prev c,
  count (walk_counters t_prev ts c) = count c + large_gaps t_prev ts.
Proof.
  induction ts as [|t ts IH]; intros t_prev c; simpl; [lia|].
  rewrite IH. unfold step_counters. destruct (60 <=? t - t_prev); simpl; lia.
Qed.

Lemma walk_annotations_lookup ts : forall t0 c k t_prev t,
  (t0 :: ts) !! k = Some t_prev ->
  ts !! k = Some t ->
  walk_annotations t0 ts c !! k
  = Some (step_annotation t_prev t (walk_counters t0 (take k ts) c)).
Proof.
  induction ts as [|t1 ts IH]; intros t0 c k t_prev t Hprev Ht; [done|].
  destruct k as [|k]; simpl in *.
  - by injection Hprev as <-; injection Ht as <-.
  - by apply IH.
Qed.

Lemma annotate_lookup anns : forall l k a d,
  anns !! k = Some a -> l !! k = Some d ->
  annotate anns l !! k = Some (apply_annotation a d).
Proof.
  induction anns as [|a' anns IH]; intros [|d' l] [|k] a d Ha Hd;
    simpl in *; try done.
  - by injection Ha as <-; injection Hd as <-.
  - by apply IH.
Qed.

Lemma CycleCount_apply_annotation a d :
  CycleCount (apply_annotation a d) = assigned cycle_label a.1 (CycleCount d).
Proof. case_annotation a; reflexivity. Qed.

Lemma CycleTotalHour_apply_annotation a d :
  CycleTotalHour (apply_annotation a d)
  = assigned str_timedelta a.2 (CycleTotalHour d).
Proof. case_annotation a; reflexivity. Qed.

Lemma boundaries_before_S ts : forall t0 k,
  boundaries_before (t0 :: ts) (S k) = large_gaps t0 (take k ts).
Proof. reflexivity. Qed.

(** C1.  On every list of records with readable times (the sorted list
    the walk is run on in particular), the walk runs to its end and marks
    exactly the pairs whose gap is at least 60 seconds.  For the pair made
    of record [i] and its successor: when the gap is at least 60 seconds,
    record [i], the predecessor, carries the label [CYCLE n], where [n] is
    1 plus the number of boundaries crossed before this pair, so that the
    counter has grown by one at each boundary; the label is the word
    CYCLE, a space, and [n] written in decimal.  When the gap is below 60
    seconds no label is assigned at that step and the record keeps what it
    had under that key.  The counter ends at 1 plus the number of
    boundaries. *)
Theorem C1_walk_labels_boundaries (l : list props) (ts : list Z) :
  times_of l ts ->
  exists st,
    walk l = Ok st
    /\ length (metadata st) = length l
    /\ cycle_count st = 1 + boundaries ts
    /\ forall (i : nat) (t_prev t : Z) (d : props),
         ts !! i = Some t_prev -> ts !! S i = Some t -> l !! i = Some d ->
         exists d',
           metadata st !! i = Some d'
           /\ CycleCount d'
              = (if 60 <=? t - t_prev
                 then Some (cycle_label (1 + boundaries_before ts (S i)))
                 else CycleCount d)
           /\ (60 <= t - t_prev ->
               exists digits,
                 CycleCount d' = Some ("CYCLE " ++ digits)%string
                 /\ read_decimal digits
                    = Some (1 + boundaries_before ts (S i))).
Proof.
  intros H. destruct H as [|d0 t0 l ts Hd Hl].
  - exists (with_metadata [] initial). repeat split; try done.
  - eexists. split; [apply walk_refines; by constructor|].
    cbn [metadata with_metadata cycle_count].
    split; [apply length_annotate|].
    split; [rewrite count_walk_counters; reflexivity|].
    intros i t_prev t d Hprev Ht Hi.
    pose proof (walk_annotations_lookup ts t0 initial i t_prev t Hprev Ht)
      as Ha.
    eexists. split; [exact (annotate_lookup _ _ _ _ _ Ha Hi)|].
    rewrite CycleCount_apply_annotation. unfold step_annotation.
    rewrite count_walk_counters, boundaries_before_S. cbn [count initial].
    destruct (60 <=? t - t_prev) eqn:Hgap; cbn [fst assigned].
    + split; [done|]. intros _.
      destruct (cycle_label_text (1 + large_gaps t0 (take i ts)))
        as (digits & Hlabel & Hread).
      exists digits. by rewrite Hlabel.
    + split; [done|]. intros Hge. apply Z.leb_gt in Hgap. lia.
Qed.

Lemma C1_witness :
  times_of scenario scenario_times
  /\ exists st,
       walk scenario = Ok st
       /\ length (metadata st) = length scenario
       /\ cycle_count st = 1 + boundaries scenario_times
       /\ forall (i : nat) (t_prev t : Z) (d : props),
            scenario_times !! i = Some t_prev ->
            scenario_times !! S i = Some t ->
            scenario !! i = Some d ->
            exists d',
              metadata st !! i = Some d'
              /\ CycleCount d'
                 = (if 60 <=? t - t_prev
                    then Some (cycle_label
                                 (1 + boundaries_before scenario_times (S i)))
                    else CycleCount d)
              /\ (60 <= t - t_prev ->
                  exists digits,
                    CycleCount d' = Some ("CYCLE " ++ digits)%string
                    /\ read_decimal digits
                       = Some (1 + boundaries_before scenario_times (S i))).
Proof.
  assert (H : times_of scenario scenario_times) by (repeat constructor).
  split; [exact H|].
  exact (C1_walk_labels_boundaries scenario scenario_times H).
Defined.

(** C2.  On the scenario the code forms the two cycles and their durations
    as the claim says, but it reports 2 battery cycles: the counter is
    incremented at the one boundary only, and the closing step uses it
    without incrementing it. *)
Lemma C2_counterexample :
  exists a,
    analyse "VISUAL" 1 scenario = Ok a
    /\ cycle_count (final a) = 2
    /\ cycle_count (final a) <> 3
    /\ nth 4 (summary a) [] = [Str "VISUAL Battery Cycles"; Int 2].
Proof. eexists. split; [vm_compute; reflexivity|]. by vm_compute. Qed.

(** C2, amended.  For the times 09:00:00, 09:00:30, 09:05:00, 09:05:20 the
    cycles are {09:00:00, 09:00:30} and {09:05:00, 09:05:20}; the record of
    09:00:30 closes CYCLE 1 with a duration of 30 seconds, printed 0:00:30,
    the gap before 09:05:00 is the only boundary, the record of 09:05:20
    closes CYCLE 2 with 20 seconds, the total cycle duration is 50 seconds
    and the reported cycle count is 2. *)
Theorem C2_scenario :
  exists a,
    analyse "VISUAL" 1 scenario = Ok a
    /\ times_of scenario scenario_times
    /\ cycles scenario_times = [[32400; 32430]; [32700; 32720]]
    /\ boundaries scenario_times = 1
    /\ map cycle_columns (metadata (final a))
       = [ ("09:00:00", None, None);
           ("09:00:30", Some "CYCLE 1", Some "0:00:30");
           ("09:05:00", None, None);
           ("09:05:20", Some "CYCLE 2", Some "0:00:20") ]%string
    /\ total_cycle_duration (final a) = 50
    /\ cycle_count (final a) = 2
    /\ nth 3 (summary a) []
       = [Str "VISUAL Hours Data Capture (By Battery Cycle)"; Str "0:00:50"]
    /\ nth 4 (summary a) [] = [Str "VISUAL Battery Cycles"; Int 2].
Proof.
  eexists. split; [vm_compute; reflexivity|].
  split; [repeat constructor|]. by vm_compute.
Qed.

(** ** Fewer than two records *)

Lemma analyse_single folder_type n d t :
  strptime (TimeTaken d) = Ok t ->
  analyse folder_type n [d]
  = Ok (mk_analysis (mk_walk [d] 1 None 0) 0
          ([ [ Str (folder_type ++ " Data Capture (Pole)"); Int (Z.of_nat n) ];
             [ Str (folder_type ++ " Start Time"); Str (TimeTaken d) ];
             [ Str (folder_type ++ " End Time"); Str (TimeTaken d) ];
             [ Str (folder_type ++ " Hours Data Capture (By Battery Cycle)");
               Str "0:00:00" ];
             [ Str (folder_type ++ " Battery Cycles"); Int 1 ];
             [];
             header_row;
             data_row d ])).
Proof.
  intros Hd. unfold analyse.
  rewrite (segment_sorted [d] [t]) by (repeat constructor; done).
  rewrite bind_Ok. unfold total_time_difference, last_item, item.
  cbn. rewrite Hd. cbn. replace (t - t) with 0 by lia. reflexivity.
Qed.

(** C6.  A category with exactly one record does not fault: the report is
    produced. *)
Lemma C6_counterexample :
  exists a, analyse "VISUAL" 1 [single] = Ok a
            /\ map cycle_columns (metadata (final a))
               = [("09:00:00"%string, None, None)].
Proof. eexists. split; vm_compute; reflexivity. Qed.

(** C6, amended.  With no record at all the pairwise walk has no index to
    visit and the run faults with [IndexError] at [metadata[-1]].  With
    exactly one record the walk has no index to visit either, and the run
    completes: the record gets no label and no duration, the total cycle
    duration is 0, the time difference is 0 and the cycle count is 1. *)
Theorem C6_fewer_than_two_records (folder_type : string) (n : nat) :
  seq 1 (length (@nil props) - 1) = []
  /\ analyse folder_type n [] = Raise IndexError
  /\ forall d t,
       strptime (TimeTaken d) = Ok t ->
       seq 1 (length [d] - 1) = []
       /\ exists a,
            analyse folder_type n [d] = Ok a
            /\ metadata (final a) = [d]
            /\ total_cycle_duration (final a) = 0
            /\ cycle_count (final a) = 1
            /\ time_difference a = 0.
Proof.
  split; [done|]. split; [done|]. intros d t Hd. split; [done|].
  eexists. split; [exact (analyse_single folder_type n d t Hd)|]. done.
Qed.

Lemma C6_witness :
  strptime (TimeTaken single) = Ok 32400
  /\ exists a,
       analyse "VISUAL" 1 [single] = Ok a
       /\ metadata (final a) = [single]
       /\ total_cycle_duration (final a) = 0
       /\ cycle_count (final a) = 1
       /\ time_difference a = 0.
Proof.
  assert (H : strptime (TimeTaken single) = Ok 32400) by reflexivity.
  split; [exact H|].
  exact (proj2 (proj2 (proj2 (C6_fewer_than_two_records "VISUAL" 1))
                      single 32400 H)).
Defined.

(** ** Cycles and the durations assigned to them *)

Lemma last_cons_default {A} (x : A) l d d' :
  List.last (x :: l) d = List.last (x :: l) d'.
Proof.
  revert x. induction l as [|y l IH]; intros x; [done|].
  change (List.last (y :: l) d = List.last (y :: l) d'). apply IH.
Qed.

Lemma last_cons_head {A} (x : A) l d : List.last (x :: l) d = List.last l x.
Proof.
  destruct l as [|y l]; [done|].
  change (List.last (y :: l) d = List.last (y :: l) x). apply last_cons_default.
Qed.

(** The first cycle starts at the first time. *)
Lemma cycles_from_head t ts :
  exists c cs, cycles_from t ts = (t :: c) :: cs.
Proof.
  revert t. induction ts as [|t' ts IH]; intros t; simpl; [by eexists _, _|].
  destruct (60 <=? t' - t); [by eexists _, _|].
  destruct (IH t') as (c & cs & ->). by eexists _, _.
Qed.

(** The cycles partition the sequence, in order. *)
Lemma cycles_concat ts : concat (cycles ts) = ts.
Proof.
  destruct ts as [|t0 ts]; [done|]. simpl. revert t0.
  induction ts as [|t ts IH]; intros t0; simpl; [done|].
  destruct (60 <=? t - t0); simpl; [by rewrite IH|].
  specialize (IH t). destruct (cycles_from t ts) as [|c cs]; [done|].
  simpl in *. by rewrite IH.
Qed.

(** No cycle contains a gap of 60 seconds or more. *)
Lemma cycles_no_large_gap ts : Forall (fun c => boundaries c = 0) (cycles ts).
Proof.
  destruct ts as [|t0 ts]; [constructor|]. simpl. revert t0.
  induction ts as [|t ts IH]; intros t0; simpl; [by repeat constructor|].
  destruct (60 <=? t - t0) eqn:Hgap; [constructor; [done | apply IH]|].
  specialize (IH t). destruct (cycles_from_head t ts) as (c & cs & Heq).
  rewrite Heq in *. inversion IH as [|? ? Hc Hcs]; subst.
  constructor; [|done]. simpl in *. rewrite Hgap. lia.
Qed.

(** The cycles are maximal: there is one more cycle than there are gaps
    of 60 seconds or more. *)
Lemma cycles_count t0 ts :
  Z.of_nat (length (cycles (t0 :: ts))) = 1 + boundaries (t0 :: ts).
Proof.
  simpl. revert t0. induction ts as [|t ts IH]; intros t0; simpl; [done|].
  specialize (IH t). destruct (60 <=? t - t0); simpl length; [lia|].
  destruct (cycles_from_head t ts) as (c & cs & Heq). rewrite Heq in *.
  simpl length in *. lia.
Qed.

Lemma run_durations_None c : run_durations None c = cycle_durations c.
Proof. reflexivity. Qed.

Lemma durations_of_annotations ts : forall t_prev c,
  map snd (walk_annotations t_prev ts c
             ++ [close_annotation (List.last ts t_prev)
                                  (walk_counters t_prev ts c)])
  = match cycles_from t_prev ts with
    | r :: rs => run_durations (start c) r ++ flat_map cycle_durations rs
    | [] => []
    end.
Proof.
  induction ts as [|t ts IH]; intros t_prev c.
  - simpl. unfold close_annotation, run_durations.
    by destruct (start c).
  - cbn [walk_annotations walk_counters cycles_from app map].
    rewrite last_cons_head, IH.
    destruct (cycles_from_head t ts) as (r & rs & ->).
    unfold step_annotation, step_counters.
    destruct (60 <=? t - t_prev); cbn [start snd].
    + rewrite run_durations_None. unfold run_durations at 1.
      simpl. by destruct (start c).
    + unfold run_durations. cbn [length Nat.sub].
      rewrite Nat.sub_0_r. cbn [repeat app]. f_equal.
      rewrite <- !app_assoc. f_equal. f_equal. unfold cycle_duration.
      rewrite !(last_cons_head t_prev (t :: r)).
      rewrite (last_cons_default t r 0 t_prev).
      by destruct (start c).
Qed.

Lemma total_of_annotations ts : forall t_prev c,
  total (close_counters (List.last ts t_prev) (walk_counters t_prev ts c))
  = total c
    + sum_durations
        (map snd (walk_annotations t_prev ts c
                    ++ [close_annotation (List.last ts t_prev)
                                         (walk_counters t_prev ts c)])).
Proof.
  induction ts as [|t ts IH]; intros t_prev c.
  - simpl. unfold close_counters, close_annotation.
    destruct (start c); simpl; lia.
  - cbn [walk_annotations walk_counters app map].
    rewrite last_cons_head, IH.
    unfold step_annotation, step_counters.
    destruct (60 <=? t - t_prev), (start c); simpl; lia.
Qed.

Lemma CycleTotalHour_annotate anns : forall l,
  length anns = length l ->
  map CycleTotalHour (annotate anns l)
  = zip_with (fun a d => assigned str_timedelta a (CycleTotalHour d))
             (map snd anns) l.
Proof.
  induction anns as [|a anns IH]; intros [|d l] Hlen; simpl in *; try done.
  rewrite CycleTotalHour_apply_annotation, IH by lia. reflexivity.
Qed.

Lemma length_annotations ts : length (annotations ts) = length ts.
Proof.
  destruct ts as [|t0 ts]; [done|]. simpl.
  rewrite length_app, length_walk_annotations. simpl. lia.
Qed.

Lemma durations_annotations ts :
  map snd (annotations ts) = assigned_durations ts.
Proof.
  destruct ts as [|t0 ts]; [done|].
  unfold annotations, assigned_durations, cycles.
  rewrite durations_of_annotations.
  by destruct (cycles_from_head t0 ts) as (r & rs & ->).
Qed.

Lemma total_final_counters ts :
  total (final_counters ts) = sum_durations (map snd (annotations ts)).
Proof.
  destruct ts as [|t0 ts]; [done|].
  unfold final_counters, annotations. rewrite total_of_annotations. simpl. lia.
Qed.

(** The marker after the walk is that of the cycle still open: the
    incoming marker while the first cycle is not closed, the first time of
    the last cycle afterwards. *)
Lemma marker_of_walk ts : forall t_prev c,
  start (walk_counters t_prev ts c)
  = match cycles_from t_prev ts with
    | [r] => match start c with
             | Some s => Some s
             | None => cycle_marker r
             end
    | rs => cycle_marker (List.last rs [])
    end.
Proof.
  induction ts as [|t ts IH]; intros t_prev c.
  - simpl. by destruct (start c).
  - cbn [walk_counters cycles_from]. rewrite IH.
    destruct (cycles_from_head t ts) as (r & rs & ->).
    unfold step_counters. destruct (60 <=? t - t_prev); cbn [start].
    + rewrite (last_cons_head [t_prev] ((t :: r) :: rs) []).
      destruct rs as [|r' rs]; [done|].
      by rewrite (last_cons_default (t :: r) (r' :: rs) [] [t_prev]).
    + destruct rs as [|r' rs]; [by destruct (start c)|]. reflexivity.
Qed.

Lemma start_final_counters ts :
  start (final_counters ts) = cycle_marker (List.last (cycles ts) []).
Proof.
  destruct ts as [|t0 ts]; [done|]. unfold final_counters, cycles.
  assert (Hclose : forall t c, start (close_counters t c) = start c)
    by (intros t c; unfold close_counters; by destruct (start c) eqn:Hs).
  rewrite Hclose, marker_of_walk.
  destruct (cycles_from_head t0 ts) as (r & rs & ->).
  by destruct rs.
Qed.

(** On sorted times of day, every duration the walk and the closing step
    assign is that of a stretch within the day. *)
Lemma durations_within_a_day ts : forall t_prev c,
  Sorted Z.le (t_prev :: ts) ->
  Forall within_a_day (t_prev :: ts) ->
  (forall s, start c = Some s -> 0 <= s <= t_prev) ->
  Forall (fun a : annotation => forall x, a.2 = Some x -> within_a_day x)
         (walk_annotations t_prev ts c
            ++ [close_annotation (List.last ts t_prev)
                                 (walk_counters t_prev ts c)]).
Proof.
  induction ts as [|t ts IH]; intros t_prev c Hs Hday Hc.
  - inversion Hday as [|? ? Hp _]; subst. unfold within_a_day in Hp.
    constructor; [|done]. unfold close_annotation. simpl.
    destruct (start c) as [s|] eqn:Hst; [|done].
    specialize (Hc s eq_refl). intros x [= <-]. unfold within_a_day. lia.
  - inversion Hs as [|? ? Hs' Hhd]; subst. inversion Hhd; subst.
    inversion Hday as [|? ? Hp Hday']; subst.
    pose proof (Forall_inv Hday') as Ht. unfold within_a_day in Hp, Ht.
    cbn [walk_annotations walk_counters app]. rewrite last_cons_head.
    constructor.
    + unfold step_annotation. destruct (60 <=? t - t_prev); [|done].
      destruct (start c) as [s|] eqn:Hst; [|done].
      specialize (Hc s eq_refl). intros x [= <-]. unfold within_a_day. lia.
    + apply IH; [done|done|]. unfold step_counters.
      destruct (60 <=? t - t_prev); cbn [start]; [done|].
      intros s. destruct (start c) as [s'|] eqn:Hst; intros [= <-].
      * specialize (Hc s' eq_refl). lia.
      * lia.
Qed.

Lemma assigned_durations_within_a_day ts :
  Sorted Z.le ts -> Forall within_a_day ts ->
  Forall (fun a : option Z =>
            forall x, a = Some x ->
                      within_a_day x /\ strptime (str_timedelta x) = Ok x)
         (assigned_durations ts).
Proof.
  intros Hs Hday. rewrite <- durations_annotations.
  destruct ts as [|t0 ts]; [constructor|].
  pose proof (durations_within_a_day ts t0 initial Hs Hday
                ltac:(discriminate)) as H.
  unfold annotations. apply Forall_map.
  eapply Forall_impl; [exact H|]. intros a Ha x Hx.
  split; [by apply Ha | by apply str_timedelta_reads_back, Ha].
Qed.

(** C3.  On every sorted list of records, segmentation assigns the
    durations of the cycles: the last record of each cycle of at least two
    records receives the cycle's last time minus its first time (the time
    at which the first gap below 60 seconds of the cycle set the marker),
    printed by [str]; every other record keeps what it had under
    [CycleTotalHour].  The total cycle duration is the sum of the
    durations so assigned, and the marker left at the end is that of the
    last cycle.  Every assigned duration is less than a day, and its
    printed text reads back as the same number of seconds. *)
Theorem C3_total_is_sum_of_cycle_durations (l : list props) (ts : list Z) :
  times_of l ts -> Sorted Z.le ts ->
  exists st,
    segment l = Ok st
    /\ map CycleTotalHour (metadata st)
       = zip_with (fun a d => assigned str_timedelta a (CycleTotalHour d))
                  (assigned_durations ts) l
    /\ total_cycle_duration st = sum_durations (assigned_durations ts)
    /\ cycle_start_time st = cycle_marker (List.last (cycles ts) [])
    /\ Forall (fun a : option Z =>
                 forall x, a = Some x ->
                           within_a_day x
                           /\ strptime (str_timedelta x) = Ok x)
              (assigned_durations ts).
Proof.
  intros H Hs. eexists. split; [exact (segment_sorted l ts H Hs)|].
  cbn [metadata with_metadata total_cycle_duration cycle_start_time].
  split; [|split; [|split]].
  - rewrite CycleTotalHour_annotate
      by (rewrite length_annotations; symmetry; by apply times_of_length).
    by rewrite durations_annotations.
  - by rewrite total_final_counters, durations_annotations.
  - apply start_final_counters.
  - apply assigned_durations_within_a_day; [done|].
    exact (times_of_within_a_day l ts H).
Qed.

Lemma C3_witness :
  times_of scenario scenario_times
  /\ Sorted Z.le scenario_times
  /\ exists st,
       segment scenario = Ok st
       /\ map CycleTotalHour (metadata st)
          = zip_with (fun a d => assigned str_timedelta a (CycleTotalHour d))
                     (assigned_durations scenario_times) scenario
       /\ total_cycle_duration st
          = sum_durations (assigned_durations scenario_times)
       /\ cycle_start_time st
          = cycle_marker (List.last (cycles scenario_times) [])
       /\ Forall (fun a : option Z =>
                    forall x, a = Some x ->
                              within_a_day x
                              /\ strptime (str_timedelta x) = Ok x)
                 (assigned_durations scenario_times).
Proof.
  assert (H : times_of scenario scenario_times) by (repeat constructor).
  assert (Hs : Sorted Z.le scenario_times)
    by (repeat constructor; unfold Z.le; simpl; discriminate).
  split; [exact H|]. split; [exact Hs|].
  exact (C3_total_is_sum_of_cycle_durations scenario scenario_times H Hs).
Defined.

(** ** The closing step *)

Lemma annotate_walk_snoc d l t0 ts c :
  times_of (d :: l) (t0 :: ts) ->
  exists front e,
    d :: l = front ++ [e]
    /\ strptime (TimeTaken e) = Ok (List.last ts t0)
    /\ annotate (walk_annotations t0 ts c) (d :: l)
       = annotate (walk_annotations t0 ts c) front ++ [e].
Proof.
  intros H. inversion H as [|? ? ? ? Hd Hl]; subst.
  assert (Hne : d :: l <> []) by discriminate.
  destruct (exists_last Hne) as (front & e & Heq).
  exists front, e. split; [exact Heq|]. split.
  - pose proof (times_of_last _ _ Hl d t0 Hd) as Hlast.
    replace e with (List.last l d); [exact Hlast|].
    rewrite <- (last_cons_head d l d), Heq. apply last_last.
  - rewrite Heq.
    rewrite <- (app_nil_r (walk_annotations t0 ts c)) at 1.
    rewrite annotate_app, annotate_nil; [done|].
    rewrite length_walk_annotations, <- (times_of_length _ _ Hl).
    apply (f_equal length) in Heq. rewrite length_app in Heq.
    simpl in Heq. lia.
Qed.

(** C4.  When the walk ends with the cycle-start marker still set to [s],
    the closing step changes the last record only.  That record receives
    the label of the current counter (the word CYCLE, a space, and the
    counter in decimal) and, as its cycle duration, the text of the time
    from [s] to its own time, which reads back as that number of seconds
    whenever it is less than a day; its other fields stay as they are.
    The duration is added to the running total and the counter is not
    incremented. *)
Theorem C4_open_cycle_closed_on_last_record
    (l : list props) (ts : list Z) (st : walk_state) (s : Z) :
  times_of l ts ->
  walk l = Ok st ->
  cycle_start_time st = Some s ->
  exists front d d' t_last digits,
    metadata st = front ++ [d]
    /\ strptime (TimeTaken d) = Ok t_last
    /\ close_last st
       = Ok (mk_walk (front ++ [d'])
                     (cycle_count st)
                     (Some s)
                     (total_cycle_duration st + (t_last - s)))
    /\ CycleCount d' = Some ("CYCLE " ++ digits)%string
    /\ read_decimal digits = Some (cycle_count st)
    /\ CycleTotalHour d' = Some (str_timedelta (t_last - s))
    /\ (within_a_day (t_last - s) ->
        strptime (str_timedelta (t_last - s)) = Ok (t_last - s))
    /\ clear_labels d' = clear_labels d.
Proof.
  intros H Hwalk Hs. destruct H as [|d0 t0 l ts Hd Hl].
  - injection Hwalk as <-. discriminate.
  - assert (H : times_of (d0 :: l) (t0 :: ts)) by (by constructor).
    rewrite (walk_refines d0 l t0 ts H) in Hwalk. injection Hwalk as <-.
    destruct (annotate_walk_snoc d0 l t0 ts initial H)
      as (front & e & Heq & He & Hann).
    cbn [metadata with_metadata cycle_count cycle_start_time
         total_cycle_duration] in *.
    destruct (cycle_label_text (count (walk_counters t0 ts initial)))
      as (digits & Hlabel & Hread).
    eexists _, e, _, _, digits. split; [exact Hann|]. split; [exact He|].
    split.
    { rewrite Hann, (close_last_snoc _ _ _ _ He).
      unfold close_annotation, close_counters. rewrite Hs. reflexivity. }
    unfold apply_annotation. cbn [fst snd].
    cbn [CycleCount CycleTotalHour set_CycleCount set_CycleTotalHour].
    rewrite Hlabel. split; [done|]. split; [done|]. split; [done|].
    split; [apply str_timedelta_reads_back | done].
Qed.

Lemma C4_witness :
  times_of scenario scenario_times
  /\ walk scenario
     = Ok (mk_walk
             (annotate [(None, None); (Some 1, Some 30); (None, None)] scenario)
             2 (Some 32700) 30)
  /\ exists front d d' t_last digits,
       annotate [(None, None); (Some 1, Some 30); (None, None)] scenario
       = front ++ [d]
       /\ strptime (TimeTaken d) = Ok t_last
       /\ close_last
            (mk_walk
               (annotate [(None, None); (Some 1, Some 30); (None, None)]
                         scenario)
               2 (Some 32700) 30)
          = Ok (mk_walk (front ++ [d']) 2 (Some 32700)
                        (30 + (t_last - 32700)))
       /\ CycleCount d' = Some ("CYCLE " ++ digits)%string
       /\ read_decimal digits = Some 2
       /\ CycleTotalHour d' = Some (str_timedelta (t_last - 32700))
       /\ (within_a_day (t_last - 32700) ->
           strptime (str_timedelta (t_last - 32700)) = Ok (t_last - 32700))
       /\ clear_labels d' = clear_labels d.
Proof.
  assert (H : times_of scenario scenario_times) by (repeat constructor).
  assert (Hw : walk scenario
               = Ok (mk_walk
                       (annotate [(None, None); (Some 1, Some 30); (None, None)]
                                 scenario)
                       2 (Some 32700) 30)) by reflexivity.
  split; [exact H|]. split; [exact Hw|].
  exact (C4_open_cycle_closed_on_last_record
           scenario scenario_times _ 32700 H Hw eq_refl).
Defined.

(** ** The time between the first and the last record *)

Lemma last_item_times l ts :
  times_of l ts -> l <> [] ->
  exists e, last_item l = Ok e /\ strptime (TimeTaken e) = Ok (List.last ts 0).
Proof.
  intros H Hne. destruct H as [|d t0 l ts Hd Hl]; [done|].
  destruct (annotate_walk_snoc d l t0 ts initial ltac:(by constructor))
    as (front & e & Heq & He & _).
  exists e. rewrite (last_cons_head t0 ts 0). split; [|exact He].
  unfold last_item. rewrite Heq.
  replace (length (front ++ [e]) - 1)%nat with (length front)
    by (rewrite length_app; simpl; lia).
  apply item_middle.
Qed.

Lemma total_time_difference_times l ts :
  times_of l ts -> l <> [] ->
  total_time_difference l = Ok (List.last ts 0 - hd 0 ts).
Proof.
  intros H Hne. destruct (last_item_times l ts H Hne) as (e & Hlast & He).
  unfold total_time_difference. rewrite Hlast, bind_Ok, He, bind_Ok.
  destruct H as [|d t0 l ts Hd Hl]; [done|].
  unfold item. simpl. by rewrite Hd.
Qed.

Lemma sorted_times_perm md keys :
  times_of md keys -> sorted_times keys md ≡ₚ keys.
Proof.
  intros H. unfold sorted_times. rewrite stable_sort_perm.
  by rewrite (proj1 (combine_fst_snd md keys H)).
Qed.

Lemma sorted_records_perm md keys :
  times_of md keys -> sorted_records keys md ≡ₚ md.
Proof.
  intros H. unfold sorted_records. rewrite stable_sort_perm.
  by rewrite (proj2 (combine_fst_snd md keys H)).
Qed.

Lemma analyse_refines folder_type n md keys :
  times_of md keys -> md <> [] ->
  exists a,
    analyse folder_type n md = Ok a
    /\ final a
       = with_metadata
           (annotate (annotations (sorted_times keys md))
                     (sorted_records keys md))
           (final_counters (sorted_times keys md))
    /\ time_difference a
       = List.last (sorted_times keys md) 0 - hd 0 (sorted_times keys md).
Proof.
  intros H Hne. unfold analyse. rewrite (segment_refines md keys H), bind_Ok.
  cbn [metadata with_metadata].
  destruct (sort_metadata_refines md keys H) as (_ & Ht & _).
  set (anns := annotations (sorted_times keys md)).
  assert (Ht' : times_of (annotate anns (sorted_records keys md))
                         (sorted_times keys md))
    by (by apply times_of_annotate).
  assert (Hne' : annotate anns (sorted_records keys md) <> []).
  { intros Heq. apply (f_equal length) in Heq.
    rewrite length_annotate in Heq.
    rewrite (Permutation_length (sorted_records_perm md keys H)) in Heq.
    by destruct md. }
  rewrite (total_time_difference_times _ _ Ht' Hne'), bind_Ok.
  destruct (last_item_times _ _ Ht' Hne') as (e & -> & _).
  destruct (annotate anns (sorted_records keys md)) as [|d l] eqn:Hl; [done|].
  unfold item at 1. cbn [lookup list_lookup]. rewrite !bind_Ok.
  eexists. split; [reflexivity|]. done.
Qed.

(** C5.  For every list with at least one record (and readable times),
    the run completes and the total time difference is the last minus the
    first of the times in ascending order.  It is read from the first and
    the last sorted record only: whatever labels and durations a
    segmentation puts on the sorted records, the value is the same. *)
Theorem C5_total_time_difference
    (folder_type : string) (n : nat) (md : list props) (keys : list Z) :
  times_of md keys -> md <> [] ->
  exists a ts,
    analyse folder_type n md = Ok a
    /\ ts ≡ₚ keys
    /\ Sorted Z.le ts
    /\ time_difference a = List.last ts 0 - hd 0 ts
    /\ forall anns,
         total_time_difference (annotate anns (sorted_records keys md))
         = Ok (List.last ts 0 - hd 0 ts).
Proof.
  intros H Hne.
  destruct (analyse_refines folder_type n md keys H Hne) as (a & Ha & _ & Hd).
  destruct (sort_metadata_refines md keys H) as (_ & Ht & Hs).
  exists a, (sorted_times keys md). split; [exact Ha|].
  split; [by apply sorted_times_perm|]. split; [exact Hs|].
  split; [exact Hd|]. intros anns.
  apply total_time_difference_times; [by apply times_of_annotate|].
  intros Heq. apply (f_equal length) in Heq. rewrite length_annotate in Heq.
  rewrite (Permutation_length (sorted_records_perm md keys H)) in Heq.
  by destruct md.
Qed.

Lemma C5_witness :
  times_of scenario scenario_times
  /\ scenario <> []
  /\ exists a ts,
       analyse "VISUAL" 1 scenario = Ok a
       /\ ts ≡ₚ scenario_times
       /\ Sorted Z.le ts
       /\ time_difference a = List.last ts 0 - hd 0 ts
       /\ forall anns,
            total_time_difference
              (annotate anns (sorted_records scenario_times scenario))
            = Ok (List.last ts 0 - hd 0 ts).
Proof.
  assert (H : times_of scenario scenario_times) by (repeat constructor).
  assert (Hne : scenario <> []) by discriminate.
  split; [exact H|]. split; [exact Hne|].
  exact (C5_total_time_difference "VISUAL" 1 scenario scenario_times H Hne).
Defined.

(** ** Running the segmentation again *)

Lemma apply_annotation_idem a d :
  apply_annotation a (apply_annotation a d) = apply_annotation a d.
Proof. case_annotation a; reflexivity. Qed.

Lemma annotate_idem anns : forall l,
  annotate anns (annotate anns l) = annotate anns l.
Proof.
  induction anns as [|a anns IH]; intros [|d l]; simpl; try done.
  by rewrite apply_annotation_idem, IH.
Qed.

Lemma clear_labels_apply_annotation a d :
  clear_labels (apply_annotation a d) = clear_labels d.
Proof. case_annotation a; reflexivity. Qed.

Lemma clear_labels_annotate anns : forall l,
  map clear_labels (annotate anns l) = map clear_labels l.
Proof.
  induction anns as [|a anns IH]; intros [|d l]; simpl; try done.
  by rewrite clear_labels_apply_annotation, IH.
Qed.

Lemma clear_labels_unlabeled l :
  Forall unlabeled l -> map clear_labels l = l.
Proof.
  induction 1 as [|d l [Hc Hh] Hl IH]; simpl; [done|]. rewrite IH.
  destruct d; simpl in *; subst; reflexivity.
Qed.

Lemma segment_Ok_times md st :
  segment md = Ok st -> exists keys, times_of md keys.
Proof.
  unfold segment, sort_metadata.
  destruct (map_outcome sort_key md) as [keys|e] eqn:Hk; [|discriminate].
  intros _. exists keys. by apply map_outcome_times_of.
Qed.

(** C7.  Segmentation is idempotent.  Running sort-and-segment on the
    records a first run produced gives the same result again: the same
    records with the same labels and durations, the same counter and the
    same total.  This holds when the second run is given the records as
    the first run left them, and, for records that carried no labels
    before the first run (as all records read from images do), when the
    labels and durations of the first run are wiped before the second. *)
Theorem C7_segment_idempotent (md : list props) (st : walk_state) :
  segment md = Ok st ->
  segment (metadata st) = Ok st
  /\ (Forall unlabeled md -> segment (map clear_labels (metadata st)) = Ok st).
Proof.
  intros Hseg. destruct (segment_Ok_times md st Hseg) as (keys & H).
  rewrite (segment_refines md keys H) in Hseg. injection Hseg as <-.
  destruct (sort_metadata_refines md keys H) as (_ & Ht & Hs).
  cbn [metadata with_metadata]. split.
  - rewrite (segment_sorted _ (sorted_times keys md))
      by (by try apply times_of_annotate).
    by rewrite annotate_idem.
  - intros Hfresh. rewrite clear_labels_annotate, clear_labels_unlabeled.
    + by apply segment_sorted.
    + eapply Permutation_Forall; [|exact Hfresh].
      symmetry. by apply sorted_records_perm.
Qed.

Lemma C7_witness :
  segment (rev scenario)
  = Ok (mk_walk
          (annotate [(None, None); (Some 1, Some 30); (None, None);
                     (Some 2, Some 20)] scenario)
          2 (Some 32700) 50)
  /\ Forall unlabeled (rev scenario)
  /\ segment (annotate [(None, None); (Some 1, Some 30); (None, None);
                        (Some 2, Some 20)] scenario)
     = Ok (mk_walk
             (annotate [(None, None); (Some 1, Some 30); (None, None);
                        (Some 2, Some 20)] scenario)
             2 (Some 32700) 50)
  /\ segment (map clear_labels
                 (annotate [(None, None); (Some 1, Some 30); (None, None);
                            (Some 2, Some 20)] scenario))
     = Ok (mk_walk
             (annotate [(None, None); (Some 1, Some 30); (None, None);
                        (Some 2, Some 20)] scenario)
             2 (Some 32700) 50).
Proof.
  assert (H : segment (rev scenario)
              = Ok (mk_walk
                      (annotate [(None, None); (Some 1, Some 30); (None, None);
                                 (Some 2, Some 20)] scenario)
                      2 (Some 32700) 50)) by reflexivity.
  assert (Hf : Forall unlabeled (rev scenario))
    by (repeat constructor).
  split; [exact H|]. split; [exact Hf|]. split.
  - exact (proj1 (C7_segment_idempotent (rev scenario) _ H)).
  - exact (proj2 (C7_segment_idempotent (rev scenario) _ H) Hf).
Defined.

(** ** The two reports side by side *)

Lemma pad_loop_spec fuel : forall max_length summary,
  (max_length - length summary <= fuel)%nat ->
  pad_loop fuel max_length summary
  = summary ++ repeat empty_row (max_length - length summary).
Proof.
  induction fuel as [|fuel IH]; intros max_length summary Hfuel; simpl.
  - replace (max_length - length summary)%nat with 0%nat by lia.
    by rewrite app_nil_r.
  - destruct (length summary <? max_length)%nat eqn:Hlt.
    + apply Nat.ltb_lt in Hlt.
      rewrite IH by (rewrite length_app; simpl; lia).
      rewrite length_app, <- app_assoc. simpl. f_equal.
      replace (max_length - length summary)%nat
        with (S (max_length - (length summary + 1)))%nat by lia.
      reflexivity.
    + apply Nat.ltb_ge in Hlt.
      replace (max_length - length summary)%nat with 0%nat by lia.
      by rewrite app_nil_r.
Qed.

(** The loop ends with its condition false, and adds nothing but empty
    rows. *)
Lemma pad_spec max_length summary :
  pad max_length summary
  = summary ++ repeat empty_row (max_length - length summary).
Proof. apply pad_loop_spec. lia. Qed.

Lemma lookup_repeat_lt {A} (x : A) k : forall i,
  (i < k)%nat -> repeat x k !! i = Some x.
Proof.
  induction k as [|k IH]; intros [|i] Hi; simpl; try lia; [done|].
  apply IH. lia.
Qed.

Lemma lookup_padded (summary : list row) k i :
  (i < length summary + k)%nat ->
  (summary ++ repeat empty_row k) !! i = Some (nth i summary empty_row).
Proof.
  revert i. induction summary as [|r summary IH]; intros i Hi; simpl in *.
  - rewrite lookup_repeat_lt by lia. by destruct i.
  - destruct i as [|i]; [done|]. simpl. apply IH. lia.
Qed.

(** C9.  Each summary is padded with rows of six empty cells up to the
    larger of the two lengths, so that both have that length.  The rows
    written are then, for every row number below that length, the VISUAL
    row, two empty cells, and the THERMAL row, where a summary that had no
    row of that number contributes the row of six empty cells. *)
Theorem C9_side_by_side (visual_summary thermal_summary : list row) :
  let max_length :=
    Nat.max (length visual_summary) (length thermal_summary) in
  pad max_length visual_summary
  = visual_summary
      ++ repeat (repeat (Str EmptyString) 6)
                (max_length - length visual_summary)
  /\ pad max_length thermal_summary
     = thermal_summary
         ++ repeat (repeat (Str EmptyString) 6)
                   (max_length - length thermal_summary)
  /\ length (pad max_length visual_summary) = max_length
  /\ length (pad max_length thermal_summary) = max_length
  /\ written_rows visual_summary thermal_summary
     = map (fun i => nth i visual_summary (repeat (Str EmptyString) 6)
                       ++ [Str EmptyString; Str EmptyString]
                       ++ nth i thermal_summary (repeat (Str EmptyString) 6))
           (seq 0 max_length).
Proof.
  intros m. split; [apply pad_spec|]. split; [apply pad_spec|].
  split; [rewrite pad_spec, length_app, repeat_length; lia|].
  split; [rewrite pad_spec, length_app, repeat_length; lia|].
  unfold written_rows. fold m. rewrite !pad_spec.
  apply list_eq. intros i. rewrite lookup_zip_with, list_lookup_fmap.
  destruct (decide (i < m)%nat) as [Hi|Hi].
  - rewrite !lookup_padded by lia. rewrite lookup_seq_lt by lia. reflexivity.
  - rewrite (lookup_ge_None_2 (seq 0 m)) by (rewrite length_seq; lia).
    rewrite (lookup_ge_None_2 (visual_summary ++ _))
      by (rewrite length_app, repeat_length; lia).
    reflexivity.
Qed.

(** ** The scan *)

Lemma extend_nil st : extend st [] [] = st.
Proof. destruct st. unfold extend. simpl. by rewrite !app_nil_r. Qed.

Lemma extend_extend st r1 e1 r2 e2 :
  extend (extend st r1 e1) r2 e2 = extend st (r1 ++ r2) (e1 ++ e2).
Proof. unfold extend. simpl. by rewrite !app_assoc. Qed.

(** A loop whose body extends the state, or raises, item by item. *)
Lemma for_each_extend {A} (body : A -> scan_state -> outcome scan_state)
    (ok : A -> bool) (r : A -> list props) (e : A -> list event) (l : list A) :
  (forall a st, In a l ->
     body a st
     = if ok a then Ok (extend st (r a) (e a)) else Raise ValueError) ->
  forall st,
    for_each body l st
    = if forallb ok l
      then Ok (extend st (flat_map r l) (flat_map e l))
      else Raise ValueError.
Proof.
  induction l as [|a l IH]; intros Hbody st; simpl.
  - by rewrite extend_nil.
  - rewrite (Hbody a st) by (by left). destruct (ok a); [|done].
    rewrite bind_Ok, IH by (intros; apply Hbody; by right). simpl.
    destruct (forallb ok l); [|done]. by rewrite extend_extend.
Qed.

Lemma folder_images_dirname images folder p :
  In p (folder_images images folder) -> dirname p = folder /\ In p images.
Proof.
  unfold folder_images. intros H. apply filter_In in H as [Hin Heq].
  split; [|done]. by apply String.eqb_eq.
Qed.

Lemma flat_map_ext_in {A B} (f g : A -> list B) l :
  (forall a, In a l -> f a = g a) -> flat_map f l = flat_map g l.
Proof.
  induction l as [|a l IH]; intros H; simpl; [done|].
  rewrite (H a) by (by left). rewrite IH; [done|].
  intros; apply H; by right.
Qed.

Lemma forallb_flat_map {A B} (p : B -> bool) (f : A -> list B) l :
  forallb p (flat_map f l) = forallb (fun a => forallb p (f a)) l.
Proof.
  induction l as [|a l IH]; simpl; [done|]. by rewrite forallb_app, IH.
Qed.

Lemma flat_map_flat_map {A B C} (g : B -> list C) (f : A -> list B) l :
  flat_map g (flat_map f l) = flat_map (fun a => flat_map g (f a)) l.
Proof.
  induction l as [|a l IH]; simpl; [done|]. by rewrite flat_map_app, IH.
Qed.

Section Scan.

(** What the images hold, and the category being scanned. *)
Variable read : string -> read_result.
Variable folder_type : string.

(** One image either extends the state by its records and events, or
    raises at the unpacking of line 36. *)
Lemma process_image_eq folder image_path st :
  process_image read folder folder_type image_path st
  = if fields_ok read image_path
    then Ok (extend st (records_in read folder_type folder image_path)
                       (events_of read image_path))
    else Raise ValueError.
Proof.
  unfold process_image, fields_ok, records_in, events_of, extend.
  destruct (read image_path) as [cause|[[|c v]|]]; simpl.
  - by rewrite app_nil_r.
  - by rewrite app_nil_r.
  - destruct (split (String c v)) as [|date [|time [|x l]]]; done.
  - by rewrite app_nil_r.
Qed.

Lemma process_one_folder_eq images folder st :
  process_one_folder read images folder_type folder st
  = if forallb (fields_ok read) (folder_images images folder)
    then Ok (extend st
               (flat_map (records_of read folder_type)
                         (folder_images images folder))
               (flat_map (events_of read) (folder_images images folder)))
    else Raise ValueError.
Proof.
  unfold process_one_folder.
  rewrite (for_each_extend _ (fields_ok read)
             (records_in read folder_type folder) (events_of read))
    by (intros; apply process_image_eq).
  destruct (forallb _ _); [|done]. do 2 f_equal.
  apply flat_map_ext_in. intros p Hp. unfold records_of.
  by rewrite (proj1 (folder_images_dirname _ _ _ Hp)).
Qed.

(** The whole scan: it completes exactly when every visited image passes
    line 36, and then it holds the records and the events of the visited
    images, in order. *)
Lemma scan_eq parent_folder tree :
  scan read parent_folder tree folder_type
  = if forallb (fields_ok read) (visited parent_folder tree)
    then Ok (mk_scan
               (flat_map (records_of read folder_type)
                         (visited parent_folder tree))
               (flat_map (events_of read) (visited parent_folder tree)))
    else Raise ValueError.
Proof.
  unfold scan, visited.
  set (images := list_images (os_walk parent_folder tree)).
  rewrite (for_each_extend _
             (fun folder =>
                forallb (fields_ok read) (folder_images images folder))
             (fun folder =>
                flat_map (records_of read folder_type)
                         (folder_images images folder))
             (fun folder =>
                flat_map (events_of read) (folder_images images folder)))
    by (intros; apply process_one_folder_eq).
  by rewrite forallb_flat_map, !flat_map_flat_map.
Qed.

Lemma records_of_inv p d :
  In d (records_of read folder_type p) ->
  exists v date time,
    read p = DateTimeOriginal (Some v)
    /\ v <> EmptyString
    /\ split v = [date; time]
    /\ d = fresh date time (basename p) (basename (dirname p)) folder_type.
Proof.
  unfold records_of, records_in.
  destruct (read p) as [cause|[[|c v]|]]; try done.
  destruct (split (String c v)) as [|date [|time [|x l]]] eqn:Hsplit; try done.
  intros [<-|[]]. by eexists _, _, _.
Qed.

Lemma events_of_Opened p q :
  In (Opened q) (events_of read p) -> q = p.
Proof.
  unfold events_of. destruct (read p); simpl; intros H;
    repeat (destruct H as [H|H]; [by inversion H|]); done.
Qed.

Lemma Opened_events_of p : In (Opened p) (events_of read p).
Proof. unfold events_of. destruct (read p); by left. Qed.

End Scan.




(** ** Paths *)

Lemma name_ok_chars name :
  name_ok name = true ->
  exists c cs, chars name = c :: cs
               /\ is_sep c = false
               /\ forallb (fun c => negb (is_sep c)) (chars name) = true.
Proof.
  unfold name_ok. intros H. apply andb_true_iff in H as [Hlen Hall].
  destruct (chars name) as [|c cs] eqn:Hc; [done|].
  exists c, cs. split; [done|]. split; [|done].
  simpl in Hall. apply andb_true_iff in Hall as [Hc' _].
  by destruct (is_sep c).
Qed.

(** Joining a name makes the path longer. *)
Lemma join_longer root name :
  name_ok name = true ->
  (length (chars root) < length (chars (join root name)))%nat.
Proof.
  intros H. destruct (name_ok_chars name H) as (c & cs & Hc & Hsep & _).
  assert (Hs : starts_with_sep (chars name) = false)
    by (rewrite Hc; exact Hsep).
  unfold join. rewrite Hs.
  destruct (_ || _); rewrite !chars_append, !length_app, Hc; simpl; lia.
Qed.

Lemma drop_while_app_all p l k :
  forallb p l = true -> drop_while p (l ++ k) = drop_while p k.
Proof.
  induction l as [|c l IH]; simpl; [done|].
  intros H. apply andb_true_iff in H as [-> H]. by apply IH.
Qed.

Lemma length_drop_while p l : (length (drop_while p l) <= length l)%nat.
Proof.
  induction l as [|c l IH]; simpl; [done|]. destruct (p c); simpl; lia.
Qed.

Lemma forallb_rev {A} (p : A -> bool) l : forallb p (rev l) = forallb p l.
Proof.
  induction l as [|c l IH]; simpl; [done|].
  rewrite forallb_app, IH. simpl. destruct (p c), (forallb p l); done.
Qed.

(** The directory of a file joined to [parent] is never longer than
    [parent]. *)
Lemma dirname_join_length parent name :
  name_ok name = true ->
  (length (chars (dirname (join parent name))) <= length (chars parent))%nat.
Proof.
  intros H. destruct (name_ok_chars name H) as (c & cs & Hc & Hsep & Hall).
  assert (Hrev : forallb (fun c => negb (is_sep c)) (rev (chars name)) = true)
    by (by rewrite forallb_rev).
  assert (Hs : starts_with_sep (chars name) = false)
    by (rewrite Hc; exact Hsep).
  unfold dirname, rev_head, join. rewrite Hs.
  destruct (length (chars parent) =? 0)%nat eqn:Hlen.
  - apply Nat.eqb_eq in Hlen. cbn [orb].
    rewrite chars_append, rev_app_distr, (drop_while_app_all _ _ _ Hrev).
    destruct (chars parent); [|done]. simpl. lia.
  - cbn [orb]. unfold ends_with_sep.
    destruct (rev (chars parent)) as [|x xs] eqn:Hp.
    { apply (f_equal length) in Hp. rewrite length_rev in Hp.
      apply Nat.eqb_neq in Hlen. simpl in Hp. lia. }
    assert (Hlp : length (chars parent) = S (length xs))
      by (by rewrite <- length_rev, Hp).
    cbn [starts_with_sep]. destruct (is_sep x) eqn:Hx.
    + rewrite chars_append, rev_app_distr, (drop_while_app_all _ _ _ Hrev), Hp.
      cbn [drop_while]. rewrite Hx. cbn [negb].
      destruct (forallb is_sep (x :: xs)); rewrite chars_text, length_rev.
      * simpl. lia.
      * pose proof (length_drop_while is_sep (x :: xs)). simpl in *. lia.
    + rewrite !chars_append, !rev_app_distr, <- app_assoc.
      rewrite (drop_while_app_all _ _ _ Hrev), Hp.
      change (rev (chars "/")) with [sep]. cbn [app drop_while].
      change (is_sep sep) with true. cbn [negb forallb andb].
      rewrite Hx. cbn [andb drop_while].
      change (is_sep sep) with true. rewrite Hx. cbn [andb].
      rewrite chars_text, length_rev. simpl. lia.
Qed.

Lemma take_while_app_all p l k :
  forallb p l = true ->
  match k with [] => True | c :: _ => p c = false end ->
  take_while p (l ++ k) = l.
Proof.
  intros Hl Hk. induction l as [|c l IH]; simpl.
  - destruct k as [|c k]; [done|]. simpl. by rewrite Hk.
  - simpl in Hl. apply andb_true_iff in Hl as [-> Hl]. by rewrite IH.
Qed.

(** The base name of a file joined to a directory is the file name. *)
Lemma basename_join root name :
  name_ok name = true -> basename (join root name) = name.
Proof.
  intros H. destruct (name_ok_chars name H) as (c & cs & Hc & Hsep & Hall).
  assert (Hrev : forallb (fun c => negb (is_sep c)) (rev (chars name)) = true)
    by (by rewrite forallb_rev).
  assert (Hs : starts_with_sep (chars name) = false)
    by (rewrite Hc; exact Hsep).
  assert (Hname : text (rev (rev (chars name))) = name)
    by (rewrite rev_involutive; apply string_of_list_ascii_of_string).
  unfold basename, join. rewrite Hs.
  destruct (length (chars root) =? 0)%nat eqn:Hlen; cbn [orb].
  - rewrite chars_append, rev_app_distr, take_while_app_all; [done|done|].
    apply Nat.eqb_eq in Hlen. by destruct (chars root).
  - unfold ends_with_sep, starts_with_sep.
    destruct (rev (chars root)) as [|x xs] eqn:Hroot.
    + rewrite !chars_append, !rev_app_distr, <- app_assoc.
      by rewrite take_while_app_all.
    + destruct (is_sep x) eqn:Hx.
      * rewrite chars_append, rev_app_distr, Hroot.
        rewrite take_while_app_all; [done|done|]. by rewrite Hx.
      * rewrite !chars_append, !rev_app_distr, <- app_assoc.
        by rewrite take_while_app_all.
Qed.

(** ** The folders and images that [os.walk] lists *)

Lemma os_walk_unfold top subdirs files :
  os_walk top (Dir subdirs files)
  = (top, map fst subdirs, files)
      :: flat_map (fun nd : string * dir => os_walk (join top nd.1) nd.2)
                  subdirs.
Proof.
  simpl. f_equal. induction subdirs as [|[name sub] l IH]; simpl; [done|].
  by rewrite IH.
Qed.

Lemma wf_dir_unfold subdirs files :
  wf_dir (Dir subdirs files)
  = forallb name_ok files
    && forallb (fun nd : string * dir => name_ok nd.1 && wf_dir nd.2) subdirs.
Proof.
  simpl. f_equal. induction subdirs as [|[name sub] l IH]; simpl; [done|].
  by rewrite IH.
Qed.

Lemma wf_dir_inv subdirs files :
  wf_dir (Dir subdirs files) = true ->
  (forall f, In f files -> name_ok f = true)
  /\ (forall nd, In nd subdirs -> name_ok nd.1 = true /\ wf_dir nd.2 = true).
Proof.
  rewrite wf_dir_unfold. intros H. apply andb_true_iff in H as [Hf Hs].
  split.
  - intros f Hin. by apply (proj1 (forallb_forall _ _) Hf).
  - intros nd Hin. apply andb_true_iff.
    by apply (proj1 (forallb_forall _ _) Hs).
Qed.

(** Every directory that is walked lies at or below the top, and its
    names are well formed. *)
Lemma os_walk_ok t : forall top root dirs files,
  wf_dir t = true ->
  In (root, dirs, files) (os_walk top t) ->
  (length (chars top) <= length (chars root))%nat
  /\ (forall d, In d dirs -> name_ok d = true)
  /\ (forall f, In f files -> name_ok f = true).
Proof.
  induction t as [subdirs files0 IH] using dir_ind.
  intros top root dirs files Hwf Hin.
  destruct (wf_dir_inv _ _ Hwf) as [Hfiles Hsubs].
  rewrite os_walk_unfold in Hin. destruct Hin as [[= <- <- <-]|Hin].
  - split; [done|]. split; [|done].
    intros d Hd. apply in_map_iff in Hd as (nd & <- & Hnd).
    by apply Hsubs.
  - apply in_flat_map in Hin as (nd & Hnd & Hin).
    destruct (Hsubs nd Hnd) as [Hname Hsub].
    pose proof (proj1 (List.Forall_forall _ _) IH nd Hnd) as IHnd.
    destruct (IHnd _ _ _ _ Hsub Hin) as (Hlen & Hd & Hf).
    pose proof (join_longer top nd.1 Hname). split; [lia|done].
Qed.

(** Below the first triple, every directory is strictly below the top. *)
Lemma os_walk_tail_longer t top root dirs files :
  wf_dir t = true ->
  In (root, dirs, files) (tail (os_walk top t)) ->
  (length (chars top) < length (chars root))%nat.
Proof.
  destruct t as [subdirs files0]. intros Hwf Hin.
  destruct (wf_dir_inv _ _ Hwf) as [_ Hsubs].
  rewrite os_walk_unfold in Hin. cbn [tail] in Hin.
  apply in_flat_map in Hin as (nd & Hnd & Hin).
  destruct (Hsubs nd Hnd) as [Hname Hsub].
  destruct (os_walk_ok _ _ _ _ _ Hsub Hin) as (Hlen & _).
  pose proof (join_longer top nd.1 Hname). lia.
Qed.

Lemma list_folders_inv walked folder :
  In folder (list_folders walked) ->
  exists root dirs files d,
    In (root, dirs, files) walked /\ In d dirs /\ folder = join root d.
Proof.
  unfold list_folders. intros H.
  apply in_flat_map in H as ([[root dirs] files] & Htr & H).
  apply in_map_iff in H as (d & <- & Hd). by exists root, dirs, files, d.
Qed.

Lemma list_images_inv walked p :
  In p (list_images walked) ->
  exists root dirs files f,
    In (root, dirs, files) walked
    /\ In f files /\ is_jpg f = true /\ p = join root f.
Proof.
  unfold list_images. intros H.
  apply in_flat_map in H as ([[root dirs] files] & Htr & H).
  apply in_map_iff in H as (f & <- & Hf).
  apply filter_In in Hf as [Hf Hjpg]. by exists root, dirs, files, f.
Qed.

(** Every enumerated folder is strictly longer than the top: the top is
    not among them. *)
Lemma folders_longer t top folder :
  wf_dir t = true ->
  In folder (list_folders (os_walk top t)) ->
  (length (chars top) < length (chars folder))%nat.
Proof.
  intros Hwf H.
  destruct (list_folders_inv _ _ H)
    as (root & dirs & files & d & Htr & Hd & ->).
  destruct (os_walk_ok _ _ _ _ _ Hwf Htr) as (Hlen & Hdirs & _).
  pose proof (join_longer root d (Hdirs d Hd)). lia.
Qed.

Lemma visited_inv parent_folder tree p :
  In p (visited parent_folder tree) ->
  In (dirname p) (list_folders (os_walk parent_folder tree))
  /\ In p (list_images (os_walk parent_folder tree)).
Proof.
  unfold visited. intros H. apply in_flat_map in H as (folder & Hfolder & H).
  destruct (folder_images_dirname _ _ _ H) as [<- Hin]. done.
Qed.

Lemma root_file_not_visited parent_folder tree f :
  wf_dir tree = true ->
  In f (root_files tree) ->
  ~ In (join parent_folder f) (visited parent_folder tree).
Proof.
  intros Hwf Hf Hin. destruct (visited_inv _ _ _ Hin) as [Hdir _].
  pose proof (folders_longer _ _ _ Hwf Hdir) as Hlong.
  assert (Hname : name_ok f = true).
  { destruct tree as [subdirs files]. by apply (wf_dir_inv _ _ Hwf). }
  pose proof (dirname_join_length parent_folder f Hname). lia.
Qed.

(** C10.  In a tree with well-formed names, the root is not among the
    enumerated folders, and no file that lies directly in the root is
    among the images the loops visit, whatever its name and whatever its
    metadata.  Every visited image is a file of a directory strictly below
    the root whose name ends in [.jpg] when put in lower case.  Whenever
    the scan completes, only visited images have been opened, and every
    record stems from an opened, visited image and carries its file name,
    which ends in [.jpg] when put in lower case. *)
Theorem C10_only_jpg_below_the_root
    (read : string -> read_result) (parent_folder : string) (tree : dir)
    (folder_type : string) :
  wf_dir tree = true ->
  ~ In parent_folder (list_folders (os_walk parent_folder tree))
  /\ (forall f, In f (root_files tree) ->
        ~ In (join parent_folder f) (visited parent_folder tree))
  /\ (forall p, In p (visited parent_folder tree) ->
        exists root dirs files f,
          In (root, dirs, files) (tail (os_walk parent_folder tree))
          /\ (length (chars parent_folder) < length (chars root))%nat
          /\ In f files
          /\ is_jpg f = true
          /\ p = join root f
          /\ basename p = f)
  /\ (forall st, scan read parent_folder tree folder_type = Ok st ->
        (forall p, In (Opened p) (trace st) ->
                   In p (visited parent_folder tree))
        /\ (forall d, In d (found st) ->
              exists p,
                In p (visited parent_folder tree)
                /\ In (Opened p) (trace st)
                /\ Image d = basename p
                /\ is_jpg (Image d) = true
                /\ Pole d = basename (dirname p))).
Proof.
  intros Hwf.
  assert (Hbelow : forall p, In p (visited parent_folder tree) ->
            exists root dirs files f,
              In (root, dirs, files) (tail (os_walk parent_folder tree))
              /\ (length (chars parent_folder) < length (chars root))%nat
              /\ In f files
              /\ is_jpg f = true
              /\ p = join root f
              /\ basename p = f).
  { intros p Hp. destruct (visited_inv _ _ _ Hp) as [_ Himg].
    destruct (list_images_inv _ _ Himg)
      as (root & dirs & files & f & Htr & Hf & Hjpg & ->).
    destruct (os_walk_ok _ _ _ _ _ Hwf Htr) as (_ & _ & Hfiles).
    destruct tree as [subdirs files0]. rewrite os_walk_unfold in Htr.
    destruct Htr as [[= <- <- <-]|Htr].
    - by destruct (root_file_not_visited parent_folder (Dir subdirs files0) f
                                         Hwf).
    - exists root, dirs, files, f. rewrite os_walk_unfold. cbn [tail].
      split; [done|]. split.
      + apply (os_walk_tail_longer (Dir subdirs files0) _ _ dirs files Hwf).
        by rewrite os_walk_unfold.
      + repeat split; try done. apply basename_join. by apply Hfiles. }
  split; [|split; [|split]].
  - intros Hin. pose proof (folders_longer _ _ _ Hwf Hin). lia.
  - intros f Hf. by apply root_file_not_visited.
  - exact Hbelow.
  - intros st Hscan. rewrite scan_eq in Hscan.
    destruct (forallb _ _); [|discriminate]. injection Hscan as <-.
    cbn [found trace]. split.
    + intros p Hp. apply in_flat_map in Hp as (q & Hq & Hp).
      by rewrite (events_of_Opened _ _ _ Hp).
    + intros d Hd. apply in_flat_map in Hd as (p & Hp & Hd).
      destruct (records_of_inv _ _ _ _ Hd)
        as (v & date & time & _ & _ & _ & ->).
      exists p. split; [done|]. split.
      * apply in_flat_map. exists p. split; [done | apply Opened_events_of].
      * cbn [Image Pole fresh]. split; [done|]. split; [|done].
        destruct (Hbelow p Hp) as (root & dirs & files & f & _ & _ & _ & Hjpg
                                   & _ & ->).
        exact Hjpg.
Qed.

Lemma C10_witness :
  wf_dir survey = true
  /\ ~ In "root"%string (list_folders (os_walk "root" survey))
  /\ ~ In (join "root" "top.jpg") (visited "root" survey)
  /\ exists st,
       scan survey_read "root" survey "VISUAL" = Ok st
       /\ (forall p, In (Opened p) (trace st) -> In p (visited "root" survey))
       /\ ~ In (Opened "root/top.jpg") (trace st).
Proof.
  assert (H : wf_dir survey = true) by reflexivity.
  destruct (C10_only_jpg_below_the_root survey_read "root" survey "VISUAL" H)
    as (Hroot & Hfiles & _ & Hscan).
  split; [exact H|]. split; [exact Hroot|].
  split; [apply Hfiles; by left|].
  eexists. split; [reflexivity|].
  destruct (Hscan _ eq_refl) as [Hopened _]. split; [exact Hopened|].
  intros Hin. apply Hopened in Hin.
  exact (Hfiles "top.jpg"%string (or_introl eq_refl) Hin).
Defined.

(** * Further properties of the code *)

(** ** The sort keeps the records and is stable *)

Lemma insert_sorted_filter {A} (k : Z) (x : Z * A) l :
  List.filter (fun y => y.1 =? k) (insert_sorted x l)
  = List.filter (fun y => y.1 =? k) (x :: l).
Proof.
  induction l as [|y l IH]; [done|]. cbn [insert_sorted].
  destruct (x.1 <=? y.1) eqn:Hxy; [done|].
  cbn [List.filter] in *. rewrite IH.
  destruct (x.1 =? k) eqn:Hx, (y.1 =? k) eqn:Hy; try done. lia.
Qed.

Lemma stable_sort_filter {A} (k : Z) (l : list (Z * A)) :
  List.filter (fun y => y.1 =? k) (stable_sort l)
  = List.filter (fun y => y.1 =? k) l.
Proof.
  induction l as [|x l IH]; [done|]. cbn [stable_sort].
  rewrite insert_sorted_filter. cbn [List.filter]. by rewrite IH.
Qed.

Lemma filter_has_time t (ps : list (Z * props)) :
  Forall (fun kd : Z * props => strptime (TimeTaken kd.2) = Ok kd.1) ps ->
  List.filter (has_time t) (map snd ps)
  = map snd (List.filter (fun y => y.1 =? t) ps).
Proof.
  induction 1 as [|[k d] ps Hd Hps IH]; [done|].
  cbn [map List.filter snd fst] in *. unfold has_time at 1. rewrite Hd.
  destruct (k =? t); simpl; by rewrite IH.
Qed.

(** X1.  The sort of line 48 is stable: for every time of day, the records
    taken at that time stand in the sorted list in the order they had in
    the input. *)
Theorem X1_sort_is_stable (md sorted : list props) (t : Z) :
  sort_metadata md = Ok sorted ->
  List.filter (has_time t) sorted = List.filter (has_time t) md.
Proof.
  unfold sort_metadata.
  destruct (map_outcome sort_key md) as [keys|e] eqn:Hk; [|discriminate].
  rewrite bind_Ok. intros [= <-]. apply map_outcome_times_of in Hk.
  pose proof (combine_times_of md keys Hk) as Hps.
  rewrite filter_has_time
    by (eapply Permutation_Forall; [symmetry; apply stable_sort_perm|done]).
  rewrite stable_sort_filter, <- filter_has_time by done.
  by rewrite (proj2 (combine_fst_snd md keys Hk)).
Qed.

(** ** What segmentation keeps *)

Lemma clear_labels_perm md keys :
  times_of md keys ->
  map clear_labels
      (annotate (annotations (sorted_times keys md)) (sorted_records keys md))
  ≡ₚ map clear_labels md.
Proof.
  intros H. rewrite clear_labels_annotate.
  by rewrite (sorted_records_perm md keys H).
Qed.

(** X2.  Segmentation neither drops nor duplicates nor alters a record:
    apart from the two cycle keys, the records of its result are those of
    the input, rearranged, and they stand in ascending order of time. *)
Theorem X2_segment_keeps_records (md : list props) (st : walk_state) :
  segment md = Ok st ->
  map clear_labels (metadata st) ≡ₚ map clear_labels md
  /\ exists ts, times_of (metadata st) ts /\ Sorted Z.le ts.
Proof.
  intros Hseg. destruct (segment_Ok_times md st Hseg) as (keys & H).
  rewrite (segment_refines md keys H) in Hseg. injection Hseg as <-.
  destruct (sort_metadata_refines md keys H) as (_ & Ht & Hs).
  cbn [metadata with_metadata]. split; [by apply clear_labels_perm|].
  exists (sorted_times keys md). split; [by apply times_of_annotate | done].
Qed.

Lemma X1_witness :
  sort_metadata ties
  = Ok [ fresh "2024:01:01" "09:00:00" "a.jpg" "P1" "VISUAL";
         fresh "2024:01:01" "09:00:30" "x.jpg" "P1" "VISUAL";
         fresh "2024:01:01" "09:00:30" "y.jpg" "P2" "VISUAL" ]
  /\ List.filter (has_time 32430)
       [ fresh "2024:01:01" "09:00:00" "a.jpg" "P1" "VISUAL";
         fresh "2024:01:01" "09:00:30" "x.jpg" "P1" "VISUAL";
         fresh "2024:01:01" "09:00:30" "y.jpg" "P2" "VISUAL" ]
     = List.filter (has_time 32430) ties.
Proof.
  assert (H : sort_metadata ties
              = Ok [ fresh "2024:01:01" "09:00:00" "a.jpg" "P1" "VISUAL";
                     fresh "2024:01:01" "09:00:30" "x.jpg" "P1" "VISUAL";
                     fresh "2024:01:01" "09:00:30" "y.jpg" "P2" "VISUAL" ])
    by reflexivity.
  split; [exact H|]. exact (X1_sort_is_stable ties _ 32430 H).
Defined.

Lemma X2_witness :
  segment ties
  = Ok (mk_walk
          (annotate [(None, None); (None, None); (Some 1, Some 30)]
             [ fresh "2024:01:01" "09:00:00" "a.jpg" "P1" "VISUAL";
               fresh "2024:01:01" "09:00:30" "x.jpg" "P1" "VISUAL";
               fresh "2024:01:01" "09:00:30" "y.jpg" "P2" "VISUAL" ])
          1 (Some 32400) 30)
  /\ map clear_labels
       (annotate [(None, None); (None, None); (Some 1, Some 30)]
          [ fresh "2024:01:01" "09:00:00" "a.jpg" "P1" "VISUAL";
            fresh "2024:01:01" "09:00:30" "x.jpg" "P1" "VISUAL";
            fresh "2024:01:01" "09:00:30" "y.jpg" "P2" "VISUAL" ])
     ≡ₚ map clear_labels ties.
Proof.
  assert (H : segment ties
              = Ok (mk_walk
                (annotate [(None, None); (None, None); (Some 1, Some 30)]
                   [ fresh "2024:01:01" "09:00:00" "a.jpg" "P1" "VISUAL";
                     fresh "2024:01:01" "09:00:30" "x.jpg" "P1" "VISUAL";
                     fresh "2024:01:01" "09:00:30" "y.jpg" "P2" "VISUAL" ])
                1 (Some 32400) 30)) by reflexivity.
  split; [exact H|]. exact (proj1 (X2_segment_keeps_records ties _ H)).
Defined.

(** ** Bounds on the durations *)

Lemma large_gaps_nonneg ts : forall t_prev, 0 <= large_gaps t_prev ts.
Proof.
  induction ts as [|t ts IH]; intros t_prev; simpl; [lia|].
  specialize (IH t). destruct (60 <=? t - t_prev); lia.
Qed.

(** The time covered so far by the cycle that is open at time [t]. *)
Lemma span_of_walk ts : forall t_prev c,
  total (close_counters (List.last ts t_prev) (walk_counters t_prev ts c))
  + 60 * large_gaps t_prev ts
  <= total c
     + match start c with Some s => t_prev - s | None => 0 end
     + (List.last ts t_prev - t_prev).
Proof.
  induction ts as [|t ts IH]; intros t_prev c.
  - simpl. unfold close_counters. destruct (start c); simpl; lia.
  - cbn [walk_counters large_gaps]. rewrite last_cons_head.
    specialize (IH t (step_counters t_prev t c)).
    unfold step_counters in *.
    destruct (60 <=? t - t_prev) eqn:Hgap; cbn [start total] in IH.
    + apply Z.leb_le in Hgap. destruct (start c); lia.
    + destruct (start c); lia.
Qed.

Lemma total_nonneg ts : forall t_prev c,
  Sorted Z.le (t_prev :: ts) ->
  (forall s, start c = Some s -> s <= t_prev) ->
  total c
  <= total (close_counters (List.last ts t_prev) (walk_counters t_prev ts c)).
Proof.
  induction ts as [|t ts IH]; intros t_prev c Hs Hc.
  - simpl. unfold close_counters. destruct (start c) as [s|] eqn:Hst; [|done].
    specialize (Hc s eq_refl). simpl. lia.
  - cbn [walk_counters]. rewrite last_cons_head.
    inversion Hs as [|? ? Hs' Hhd]; subst. inversion Hhd; subst.
    etransitivity; [|apply IH; [done|]].
    + unfold step_counters. destruct (60 <=? t - t_prev); simpl; [|done].
      destruct (start c) as [s|] eqn:Hst; [|done].
      specialize (Hc s eq_refl). lia.
    + unfold step_counters. destruct (60 <=? t - t_prev); simpl; [done|].
      intros s. destruct (start c) as [s'|] eqn:Hst; intros [= <-].
      * specialize (Hc s' eq_refl). lia.
      * lia.
Qed.

Lemma count_final_counters ts :
  count (final_counters ts) = 1 + boundaries ts.
Proof.
  destruct ts as [|t0 ts]; [done|]. unfold final_counters, boundaries.
  assert (Hclose : forall t c, count (close_counters t c) = count c)
    by (intros t c; unfold close_counters; by destruct (start c)).
  by rewrite Hclose, count_walk_counters.
Qed.

(** X3.  For every list with at least one record, the total cycle
    duration is not negative, and together with 60 seconds for every
    boundary crossed (the cycle count less one) it does not exceed the
    time between the first and the last record. *)
Theorem X3_total_within_time_difference
    (folder_type : string) (n : nat) (md : list props) (keys : list Z) :
  times_of md keys -> md <> [] ->
  exists a,
    analyse folder_type n md = Ok a
    /\ 0 <= total_cycle_duration (final a)
    /\ total_cycle_duration (final a) + 60 * (cycle_count (final a) - 1)
       <= time_difference a.
Proof.
  intros H Hne.
  destruct (analyse_refines folder_type n md keys H Hne)
    as (a & Ha & Hfinal & Hd).
  destruct (sort_metadata_refines md keys H) as (_ & Ht & Hs).
  exists a. split; [exact Ha|]. rewrite Hfinal, Hd.
  cbn [with_metadata total_cycle_duration cycle_count].
  rewrite count_final_counters.
  destruct (sorted_times keys md) as [|t0 ts] eqn:Hts.
  { apply (f_equal length) in Hts. rewrite <- (times_of_length _ _ Ht) in Hts.
    rewrite (Permutation_length (sorted_records_perm md keys H)) in Hts.
    by destruct md. }
  unfold final_counters, boundaries. rewrite (last_cons_head t0 ts 0).
  cbn [hd]. split.
  - by apply (total_nonneg ts t0 initial).
  - pose proof (span_of_walk ts t0 initial) as Hspan. simpl in Hspan. lia.
Qed.

Lemma X3_witness :
  times_of scenario scenario_times
  /\ scenario <> []
  /\ exists a,
       analyse "VISUAL" 1 scenario = Ok a
       /\ 0 <= total_cycle_duration (final a)
       /\ total_cycle_duration (final a) + 60 * (cycle_count (final a) - 1)
          <= time_difference a.
Proof.
  assert (H : times_of scenario scenario_times) by (repeat constructor).
  assert (Hne : scenario <> []) by discriminate.
  split; [exact H|]. split; [exact Hne|].
  exact (X3_total_within_time_difference "VISUAL" 1 scenario scenario_times
           H Hne).
Defined.

(** ** The labels, in order *)

Lemma labels_of_walk ts : forall t_prev c,
  omap fst (walk_annotations t_prev ts c)
  = count_from (count c) (Z.to_nat (large_gaps t_prev ts)).
Proof.
  induction ts as [|t ts IH]; intros t_prev c; [done|].
  cbn [walk_annotations large_gaps omap list_omap]. rewrite IH.
  pose proof (large_gaps_nonneg ts t) as Hnn.
  unfold step_annotation, step_counters.
  destruct (60 <=? t - t_prev); cbn [fst count].
  - replace (Z.to_nat (1 + large_gaps t ts))
      with (S (Z.to_nat (large_gaps t ts))) by lia.
    reflexivity.
  - replace (0 + large_gaps t ts) with (large_gaps t ts) by lia. reflexivity.
Qed.

Lemma count_from_snoc k : forall n,
  count_from n k ++ [n + Z.of_nat k] = count_from n (S k).
Proof.
  induction k as [|k IH]; intros n.
  - cbn [count_from app]. f_equal. lia.
  - change (n :: (count_from (n + 1) k ++ [n + Z.of_nat (S k)])
            = n :: count_from (n + 1) (S k)).
    rewrite <- IH. do 3 f_equal. lia.
Qed.

Lemma labels_of_annotations t0 ts :
  omap fst (annotations (t0 :: ts))
  = count_from 1
      (Z.to_nat (boundaries (t0 :: ts))
       + match start (final_counters (t0 :: ts)) with
         | Some _ => 1
         | None => 0
         end)%nat.
Proof.
  unfold annotations, final_counters, boundaries.
  rewrite omap_app, labels_of_walk.
  assert (Hclose : forall t c, start (close_counters t c) = start c)
    by (intros t c; unfold close_counters; by destruct (start c) eqn:Hs).
  rewrite Hclose. unfold close_annotation.
  pose proof (large_gaps_nonneg ts t0) as Hnn.
  destruct (start (walk_counters t0 ts initial)) as [s|];
    cbn [omap list_omap fst].
  - rewrite count_walk_counters. cbn [count initial].
    rewrite Nat.add_1_r, <- count_from_snoc. do 3 f_equal. lia.
  - by rewrite app_nil_r, Nat.add_0_r.
Qed.

Lemma CycleCount_annotate anns : forall l,
  length anns = length l ->
  Forall unlabeled l ->
  omap CycleCount (annotate anns l) = cycle_label <$> omap fst anns.
Proof.
  induction anns as [|a anns IH]; intros [|d l] Hlen Hl; simpl in *;
    try done.
  inversion Hl as [|? ? [Hc _] Hl']; subst.
  rewrite CycleCount_apply_annotation, Hc.
  destruct a as [[n|] dur]; cbn [fst assigned]; rewrite IH by (done || lia);
    done.
Qed.

Lemma lookup_count_from k : forall n i x,
  count_from n k !! i = Some x -> x = n + Z.of_nat i.
Proof.
  induction k as [|k IH]; intros n i x; [done|].
  destruct i as [|i]; cbn [count_from]; [intros [= <-]; lia|].
  intros Hx. change (count_from (n + 1) k !! i = Some x) in Hx.
  apply IH in Hx. lia.
Qed.

(** X4.  On records that carry no labels before, as all records read from
    images do, the labels that segmentation leaves on the sorted records
    are, in order, CYCLE 1, CYCLE 2, ..., without gap or repetition.
    Their number is the final cycle count when the last cycle is closed by
    the closing step (the marker is set), and one less otherwise: a last
    cycle of a single record is counted but never labelled.  The label at
    place [i] of that sequence, counted from 0, is the text [CYCLE ]
    followed by the decimal digits of [i + 1]. *)
Theorem X4_labels_are_consecutive (md : list props) (st : walk_state) :
  segment md = Ok st ->
  Forall unlabeled md ->
  md <> [] ->
  omap CycleCount (metadata st)
  = cycle_label
      <$> count_from 1
            (Z.to_nat (cycle_count st - 1)
             + match cycle_start_time st with
               | Some _ => 1
               | None => 0
               end)%nat
  /\ forall (i : nat) (label : string),
       omap CycleCount (metadata st) !! i = Some label ->
       exists digits,
         label = ("CYCLE " ++ digits)%string
         /\ read_decimal digits = Some (Z.of_nat i + 1).
Proof.
  intros Hseg Hfresh Hne.
  assert (Heq : omap CycleCount (metadata st)
                = cycle_label
                    <$> count_from 1
                          (Z.to_nat (cycle_count st - 1)
                           + match cycle_start_time st with
                             | Some _ => 1
                             | None => 0
                             end)%nat).
  { destruct (segment_Ok_times md st Hseg) as (keys & H).
    rewrite (segment_refines md keys H) in Hseg. injection Hseg as <-.
    destruct (sort_metadata_refines md keys H) as (_ & Ht & Hs).
    cbn [metadata with_metadata cycle_count cycle_start_time].
    rewrite CycleCount_annotate.
    - destruct (sorted_times keys md) as [|t0 ts] eqn:Hts.
      { apply (f_equal length) in Hts.
        rewrite <- (times_of_length _ _ Ht) in Hts.
        rewrite (Permutation_length (sorted_records_perm md keys H)) in Hts.
        by destruct md. }
      rewrite labels_of_annotations, count_final_counters.
      do 3 f_equal. lia.
    - rewrite length_annotations. symmetry. by apply times_of_length.
    - eapply Permutation_Forall; [|exact Hfresh].
      symmetry. by apply sorted_records_perm. }
  split; [exact Heq|]. intros i label Hl.
  rewrite Heq, list_lookup_fmap in Hl.
  destruct (count_from 1 _ !! i) as [n|] eqn:Hn; [|discriminate].
  apply lookup_count_from in Hn. injection Hl as <-.
  destruct (cycle_label_text n) as (digits & Hlabel & Hread).
  exists digits. split; [exact Hlabel|]. rewrite Hread. f_equal. lia.
Qed.

Lemma X4_witness :
  segment (rev scenario)
  = Ok (mk_walk
          (annotate [(None, None); (Some 1, Some 30); (None, None);
                     (Some 2, Some 20)] scenario)
          2 (Some 32700) 50)
  /\ Forall unlabeled (rev scenario)
  /\ rev scenario <> []
  /\ omap CycleCount
       (annotate [(None, None); (Some 1, Some 30); (None, None);
                  (Some 2, Some 20)] scenario)
     = cycle_label <$> count_from 1 2
  /\ forall (i : nat) (label : string),
       omap CycleCount
         (annotate [(None, None); (Some 1, Some 30); (None, None);
                    (Some 2, Some 20)] scenario) !! i = Some label ->
       exists digits,
         label = ("CYCLE " ++ digits)%string
         /\ read_decimal digits = Some (Z.of_nat i + 1).
Proof.
  assert (H : segment (rev scenario)
              = Ok (mk_walk
                      (annotate [(None, None); (Some 1, Some 30); (None, None);
                                 (Some 2, Some 20)] scenario)
                      2 (Some 32700) 50)) by reflexivity.
  assert (Hf : Forall unlabeled (rev scenario)) by (repeat constructor).
  assert (Hne : rev scenario <> []) by discriminate.
  split; [exact H|]. split; [exact Hf|]. split; [exact Hne|].
  exact (X4_labels_are_consecutive (rev scenario) _ H Hf Hne).
Defined.

(** ** Durations go with labels *)

Lemma walk_annotations_labelled ts : forall t_prev c,
  Forall (fun a : annotation => a.2 <> None -> a.1 <> None)
         (walk_annotations t_prev ts c).
Proof.
  induction ts as [|t ts IH]; intros t_prev c; simpl; constructor; [|done].
  unfold step_annotation. by destruct (60 <=? t - t_prev).
Qed.

Lemma annotations_labelled ts :
  Forall (fun a : annotation => a.2 <> None -> a.1 <> None) (annotations ts).
Proof.
  destruct ts as [|t0 ts]; [constructor|]. unfold annotations.
  apply Forall_app. split; [apply walk_annotations_labelled|].
  constructor; [|done]. unfold close_annotation.
  by destruct (start (walk_counters t0 ts initial)).
Qed.

Lemma annotate_labelled anns : forall l,
  Forall (fun a : annotation => a.2 <> None -> a.1 <> None) anns ->
  Forall unlabeled l ->
  Forall (fun d => CycleTotalHour d <> None -> CycleCount d <> None)
         (annotate anns l).
Proof.
  induction anns as [|a anns IH]; intros l Ha Hl.
  - rewrite annotate_nil. eapply Forall_impl; [exact Hl|].
    intros d [_ Hd] Hd'. by rewrite Hd in Hd'.
  - destruct l as [|d l]; [constructor|]. simpl.
    inversion Ha as [|? ? Ha1 Ha2]; subst.
    inversion Hl as [|? ? [Hc Hh] Hl2]; subst.
    constructor; [|by apply IH].
    rewrite CycleCount_apply_annotation, CycleTotalHour_apply_annotation.
    rewrite Hc, Hh. destruct a as [[n|] [dur|]]; simpl in *; try done.
    intros _. by destruct Ha1.
Qed.

(** X5.  On records that carry no labels before, every record that
    segmentation gives a cycle duration also has a cycle label: no row of
    the report shows a duration without its cycle. *)
Theorem X5_duration_has_label (md : list props) (st : walk_state) :
  segment md = Ok st ->
  Forall unlabeled md ->
  Forall (fun d => CycleTotalHour d <> None -> CycleCount d <> None)
         (metadata st).
Proof.
  intros Hseg Hfresh. destruct (segment_Ok_times md st Hseg) as (keys & H).
  rewrite (segment_refines md keys H) in Hseg. injection Hseg as <-.
  cbn [metadata with_metadata].
  apply annotate_labelled; [apply annotations_labelled|].
  eapply Permutation_Forall; [|exact Hfresh].
  symmetry. by apply sorted_records_perm.
Qed.

Lemma X5_witness :
  segment (rev scenario)
  = Ok (mk_walk
          (annotate [(None, None); (Some 1, Some 30); (None, None);
                     (Some 2, Some 20)] scenario)
          2 (Some 32700) 50)
  /\ Forall unlabeled (rev scenario)
  /\ Forall (fun d => CycleTotalHour d <> None -> CycleCount d <> None)
       (annotate [(None, None); (Some 1, Some 30); (None, None);
                  (Some 2, Some 20)] scenario).
Proof.
  assert (H : segment (rev scenario)
              = Ok (mk_walk
                      (annotate [(None, None); (Some 1, Some 30); (None, None);
                                 (Some 2, Some 20)] scenario)
                      2 (Some 32700) 50)) by reflexivity.
  assert (Hf : Forall unlabeled (rev scenario)) by (repeat constructor).
  split; [exact H|]. split; [exact Hf|].
  exact (X5_duration_has_label (rev scenario) _ H Hf).
Defined.

(** ** Times of day *)

(** X7.  The formatting of lines 80-82 and [strptime] agree: a time
    difference of less than a day, formatted as [HH:MM:SS], is read back
    by [strptime] as the same number of seconds. *)
Theorem X7_formatted_time_reads_back (d : Z) :
  0 <= d < 86400 ->
  strptime (total_time_formatted d) = Ok d.
Proof.
  intros Hd. unfold total_time_formatted.
  rewrite strptime_formatted.
  - f_equal. pose proof (Z.div_mod d 3600).
    pose proof (Z.div_mod (d mod 3600) 60). lia.
  - split; [apply Z.div_pos; lia | apply Z.div_lt_upper_bound; lia].
  - pose proof (Z.mod_pos_bound d 3600).
    split; [apply Z.div_pos; lia | apply Z.div_lt_upper_bound; lia].
  - apply Z.mod_pos_bound. lia.
Qed.

Lemma X7_witness :
  0 <= 32720 < 86400
  /\ strptime (total_time_formatted 32720) = Ok 32720.
Proof.
  assert (H : 0 <= 32720 < 86400) by lia.
  split; [exact H|]. exact (X7_formatted_time_reads_back 32720 H).
Defined.

(** ** Splitting a tag value *)

Lemma split_ws_word w : forall acc rest,
  forallb (fun c => negb (is_space c)) w = true ->
  split_ws acc (w ++ rest) = split_ws (rev w ++ acc) rest.
Proof.
  induction w as [|c w IH]; intros acc rest Hw; [done|].
  simpl in Hw. apply andb_true_iff in Hw as [Hc Hw].
  cbn [app split_ws]. destruct (is_space c); [done|].
  rewrite IH by done. cbn [rev]. by rewrite <- app_assoc.
Qed.

Lemma split_ws_blank ws : forall rest,
  forallb is_space ws = true -> split_ws [] (ws ++ rest) = split_ws [] rest.
Proof.
  induction ws as [|c ws IH]; intros rest Hws; [done|].
  simpl in Hws. apply andb_true_iff in Hws as [Hc Hws].
  cbn [app split_ws]. rewrite Hc. by apply IH.
Qed.

Lemma split_ws_end_of_word acc ws rest :
  acc <> [] -> ws <> [] -> forallb is_space ws = true ->
  split_ws acc (ws ++ rest) = text (rev acc) :: split_ws [] rest.
Proof.
  intros Hacc Hne Hws. destruct ws as [|c ws]; [done|].
  simpl in Hws. apply andb_true_iff in Hws as [Hc Hws].
  cbn [app split_ws]. rewrite Hc. destruct acc as [|x acc]; [done|].
  f_equal. by apply split_ws_blank.
Qed.

Lemma rev_nonempty {A} (l : list A) : l <> [] -> rev l <> [].
Proof. intros H Hr. apply H. by rewrite <- (rev_involutive l), Hr. Qed.

Lemma word_chars s :
  word s = true ->
  chars s <> [] /\ forallb (fun c => negb (is_space c)) (chars s) = true.
Proof.
  unfold word. intros H. apply andb_true_iff in H as [Hlen Hall].
  split; [|done]. intros Heq. by rewrite Heq in Hlen.
Qed.

Lemma split_date_time (pre date gap time post : string) :
  word date = true -> word time = true ->
  blank pre = true -> blank gap = true -> blank post = true ->
  gap <> EmptyString ->
  split (pre ++ date ++ gap ++ time ++ post) = [date; time].
Proof.
  intros Hdate Htime Hpre Hgap Hpost Hne. unfold split, blank in *.
  destruct (word_chars _ Hdate) as [Hd1 Hd2].
  destruct (word_chars _ Htime) as [Ht1 Ht2].
  assert (Hgap' : chars gap <> [])
    by (destruct gap; [by destruct Hne | discriminate]).
  rewrite !chars_append.
  rewrite split_ws_blank, split_ws_word by done. rewrite app_nil_r.
  rewrite split_ws_end_of_word; [|by apply rev_nonempty|done|done].
  rewrite rev_involutive. unfold text at 1.
  rewrite string_of_list_ascii_of_string. f_equal.
  rewrite split_ws_word by done. rewrite app_nil_r.
  destruct (chars post) as [|c cs] eqn:Hp.
  - cbn [split_ws]. destruct (rev (chars time)) eqn:Hr.
    { by destruct (rev_nonempty _ Ht1). }
    rewrite <- Hr, rev_involutive. unfold text.
    by rewrite string_of_list_ascii_of_string.
  - rewrite <- (app_nil_r (c :: cs)).
    rewrite split_ws_end_of_word; [|by apply rev_nonempty|done|done].
    rewrite rev_involutive. unfold text.
    by rewrite string_of_list_ascii_of_string.
Qed.

(** X8.  An image whose DateTimeOriginal value is a date, white space
    and a time, with or without white space around them, always passes
    the unpacking of line 36: it is opened, nothing is printed, and one
    record is appended that carries the date and the time unchanged, the
    base name of the image and the base name of its folder. *)
Theorem X8_date_and_time_give_a_record
    (read : string -> read_result) (folder folder_type image_path : string)
    (st : scan_state) (pre date gap time post : string) :
  read image_path
  = DateTimeOriginal (Some (pre ++ date ++ gap ++ time ++ post)%string) ->
  word date = true -> word time = true ->
  blank pre = true -> blank gap = true -> blank post = true ->
  gap <> EmptyString ->
  process_image read folder folder_type image_path st
  = Ok (mk_scan
          (found st ++ [fresh date time (basename image_path)
                              (basename folder) folder_type])
          (trace st ++ [Opened image_path])).
Proof.
  intros Hread Hdate Htime Hpre Hgap Hpost Hne.
  pose proof (split_date_time pre date gap time post Hdate Htime Hpre Hgap
                Hpost Hne) as Hsplit.
  unfold process_image. rewrite Hread.
  destruct (pre ++ date ++ gap ++ time ++ post)%string as [|c v] eqn:Hv.
  { discriminate Hsplit. }
  by rewrite Hsplit.
Qed.

Lemma X8_witness :
  survey_read "root/P1/c.jpg"
  = DateTimeOriginal
      (Some ("" ++ "2024:01:01" ++ " " ++ "09:00:00" ++ "")%string)
  /\ process_image survey_read "root/P1" "VISUAL" "root/P1/c.jpg"
       (mk_scan [] [])
     = Ok (mk_scan
             ([] ++ [fresh "2024:01:01" "09:00:00" (basename "root/P1/c.jpg")
                           (basename "root/P1") "VISUAL"])
             ([] ++ [Opened "root/P1/c.jpg"])).
Proof.
  assert (H : survey_read "root/P1/c.jpg"
              = DateTimeOriginal
                  (Some ("" ++ "2024:01:01" ++ " " ++ "09:00:00" ++ "")%string))
    by reflexivity.
  split; [exact H|].
  exact (X8_date_and_time_give_a_record survey_read "root/P1" "VISUAL"
           "root/P1/c.jpg" (mk_scan [] []) "" "2024:01:01" " " "09:00:00" ""
           H eq_refl eq_refl eq_refl eq_refl eq_refl ltac:(discriminate)).
Defined.

(** A no-break space between the date and the time separates them as a
    space does. *)
Lemma no_break_space_separates :
  split ("2024:01:01" ++ String "160" "09:00:30")
  = ["2024:01:01"; "09:00:30"]%string
  /\ process_image nbsp_read "root/P1" "VISUAL" "root/P1/c.jpg" (mk_scan [] [])
     = Ok (mk_scan [fresh "2024:01:01" "09:00:30" "c.jpg" "P1" "VISUAL"]
                   [Opened "root/P1/c.jpg"]).
Proof. split; reflexivity. Qed.

(** ** Every image below the root is visited *)

Lemma join_ends_in_name root name :
  name_ok name = true -> ends_in_name (join root name).
Proof.
  intros H. destruct (name_ok_chars name H) as (c & cs & Hc & Hsep & Hall).
  assert (Hs : starts_with_sep (chars name) = false)
    by (rewrite Hc; exact Hsep).
  assert (Hrev : forallb (fun c => negb (is_sep c)) (rev (chars name)) = true)
    by (by rewrite forallb_rev).
  assert (Hne : rev (chars name) <> [])
    by (apply rev_nonempty; by rewrite Hc).
  destruct (rev (chars name)) as [|x xs] eqn:Hr; [done|].
  simpl in Hrev. apply andb_true_iff in Hrev as [Hx _].
  exists x. unfold join. rewrite Hs.
  destruct (_ || _); rewrite !chars_append, !rev_app_distr, Hr;
    eexists; (split; [reflexivity | by destruct (is_sep x)]).
Qed.

(** The directory of a file joined to such a path is the path. *)
Lemma dirname_join_name root name :
  ends_in_name root -> name_ok name = true ->
  dirname (join root name) = root.
Proof.
  intros (x & xs & Hroot & Hx) H.
  destruct (name_ok_chars name H) as (c & cs & Hc & Hsep & Hall).
  assert (Hs : starts_with_sep (chars name) = false)
    by (rewrite Hc; exact Hsep).
  assert (Hrev : forallb (fun c => negb (is_sep c)) (rev (chars name)) = true)
    by (by rewrite forallb_rev).
  assert (Hlen : (length (chars root) =? 0)%nat = false).
  { apply Nat.eqb_neq. rewrite <- length_rev, Hroot. simpl. lia. }
  unfold dirname, rev_head, join, ends_with_sep.
  rewrite Hs, Hlen, Hroot. cbn [orb starts_with_sep]. rewrite Hx.
  rewrite !chars_append, !rev_app_distr, <- app_assoc.
  rewrite (drop_while_app_all _ _ _ Hrev), Hroot.
  change (rev (chars "/")) with [sep]. cbn [app drop_while].
  change (is_sep sep) with true. cbn [negb forallb andb].
  rewrite Hx. cbn [andb drop_while]. change (is_sep sep) with true.
  rewrite Hx, <- Hroot, rev_involutive.
  apply string_of_list_ascii_of_string.
Qed.

Lemma os_walk_cons top t :
  os_walk top t
  = (top, map fst (match t with Dir subdirs _ => subdirs end), root_files t)
      :: tail (os_walk top t).
Proof. destruct t as [subdirs files]. by rewrite os_walk_unfold. Qed.

Lemma list_folders_incl w1 w2 folder :
  (forall tr, In tr w1 -> In tr w2) ->
  In folder (list_folders w1) -> In folder (list_folders w2).
Proof.
  unfold list_folders. intros Hincl H.
  apply in_flat_map in H as (tr & Htr & H).
  apply in_flat_map. exists tr. split; [by apply Hincl | done].
Qed.

(** Every directory below the top is one of the enumerated folders, and
    its path ends in its name. *)
Lemma os_walk_tail_roots t : forall top root dirs files,
  wf_dir t = true ->
  In (root, dirs, files) (tail (os_walk top t)) ->
  In root (list_folders (os_walk top t)) /\ ends_in_name root.
Proof.
  induction t as [subdirs files0 IH] using dir_ind.
  intros top root dirs files Hwf Hin.
  destruct (wf_dir_inv _ _ Hwf) as [_ Hsubs].
  rewrite os_walk_unfold in *. cbn [tail] in Hin.
  apply in_flat_map in Hin as (nd & Hnd & Hin).
  destruct (Hsubs nd Hnd) as [Hname Hsub].
  rewrite os_walk_cons in Hin. destruct Hin as [[= <- <- <-]|Hin].
  - split; [|by apply join_ends_in_name].
    unfold list_folders. cbn [flat_map]. apply in_or_app. left.
    apply in_map, in_map_iff. by exists nd.
  - pose proof (proj1 (List.Forall_forall _ _) IH nd Hnd) as IHnd.
    destruct (IHnd _ _ _ _ Hsub Hin) as [Hroot Hends]. split; [|done].
    eapply list_folders_incl; [|exact Hroot].
    intros tr Htr. right. apply in_flat_map. by exists nd.
Qed.

(** X9.  In a tree with well-formed names, every file whose name ends in
    [.jpg] (in any case) and that lies in a directory below the root, at
    any depth, is visited by the loops, and has been opened whenever the
    scan completes. *)
Theorem X9_every_jpg_below_the_root_is_visited
    (read : string -> read_result) (parent_folder : string) (tree : dir)
    (folder_type root : string) (dirs files : list string) (f : string) :
  wf_dir tree = true ->
  In (root, dirs, files) (tail (os_walk parent_folder tree)) ->
  In f files ->
  is_jpg f = true ->
  In (join root f) (visited parent_folder tree)
  /\ forall st, scan read parent_folder tree folder_type = Ok st ->
                In (Opened (join root f)) (trace st).
Proof.
  intros Hwf Htr Hf Hjpg.
  assert (Hwalked : In (root, dirs, files) (os_walk parent_folder tree))
    by (rewrite os_walk_cons; by right).
  destruct (os_walk_ok _ _ _ _ _ Hwf Hwalked) as (_ & _ & Hfiles).
  destruct (os_walk_tail_roots _ _ _ _ _ Hwf Htr) as [Hroot Hends].
  assert (Hvisited : In (join root f) (visited parent_folder tree)).
  { unfold visited. apply in_flat_map. exists root. split; [done|].
    unfold folder_images. apply filter_In. split.
    - unfold list_images. apply in_flat_map. exists (root, dirs, files).
      split; [done|]. apply in_map, filter_In. by split.
    - apply String.eqb_eq, dirname_join_name; [done | by apply Hfiles]. }
  split; [done|]. intros st Hscan. rewrite scan_eq in Hscan.
  destruct (forallb _ _); [|discriminate]. injection Hscan as <-.
  cbn [trace]. apply in_flat_map. exists (join root f).
  split; [done | apply Opened_events_of].
Qed.

Lemma X9_witness :
  wf_dir survey = true
  /\ In ("root/P1"%string, [], ["a.jpg"; "b.JPG"; "c.jpg"; "notes.txt"]%string)
        (tail (os_walk "root" survey))
  /\ In (join "root/P1" "b.JPG") (visited "root" survey).
Proof.
  assert (H : wf_dir survey = true) by reflexivity.
  assert (Htr : In ("root/P1"%string, [],
                    ["a.jpg"; "b.JPG"; "c.jpg"; "notes.txt"]%string)
                   (tail (os_walk "root" survey))) by (by left).
  split; [exact H|]. split; [exact Htr|].
  exact (proj1 (X9_every_jpg_below_the_root_is_visited survey_read "root"
                  survey "VISUAL" "root/P1" []
                  ["a.jpg"; "b.JPG"; "c.jpg"; "notes.txt"]%string "b.JPG"
                  H Htr ltac:(right; by left) eq_refl)).
Defined.

(** ** The report *)

Lemma list_folders_app w1 w2 :
  list_folders (w1 ++ w2) = list_folders w1 ++ list_folders w2.
Proof. unfold list_folders. apply flat_map_app. Qed.

Lemma count_dirs_unfold subdirs files :
  count_dirs (Dir subdirs files)
  = list_sum (map (fun nd : string * dir => S (count_dirs nd.2)) subdirs).
Proof.
  simpl. induction subdirs as [|[name sub] l IH]; simpl; [done|].
  by rewrite IH.
Qed.

(** The folders enumerated at lines 16-17 are all the directories below
    the root. *)
Lemma length_list_folders t : forall top,
  length (list_folders (os_walk top t)) = count_dirs t.
Proof.
  induction t as [subdirs files IH] using dir_ind. intros top.
  rewrite os_walk_unfold, count_dirs_unfold.
  change (list_folders ((top, map fst subdirs, files) :: ?w))
    with (map (join top) (map fst subdirs) ++ list_folders w).
  rewrite length_app, !length_map.
  induction IH as [|nd l Hnd Hl IHl]; [done|].
  cbn [flat_map map list_sum length].
  rewrite list_folders_app, length_app, Hnd.
  change (list_sum (?x :: ?xs)) with (x + list_sum xs)%nat. lia.
Qed.

Lemma analyse_summary folder_type n md a :
  analyse folder_type n md = Ok a ->
  segment md = Ok (final a)
  /\ total_time_difference (metadata (final a)) = Ok (time_difference a)
  /\ exists first last,
       item (metadata (final a)) 0 = Ok first
       /\ last_item (metadata (final a)) = Ok last
       /\ summary a
          = [ [ Str (folder_type ++ " Data Capture (Pole)");
                Int (Z.of_nat n) ];
              [ Str (folder_type ++ " Start Time"); Str (TimeTaken first) ];
              [ Str (folder_type ++ " End Time"); Str (TimeTaken last) ];
              [ Str (folder_type ++ " Hours Data Capture (By Battery Cycle)");
                Str (str_timedelta (total_cycle_duration (final a))) ];
              [ Str (folder_type ++ " Battery Cycles");
                Int (cycle_count (final a)) ];
              [];
              header_row ]
            ++ map data_row (metadata (final a)).
Proof.
  unfold analyse. destruct (segment md) as [st|] eqn:Hseg; [|discriminate].
  rewrite bind_Ok.
  destruct (total_time_difference (metadata st)) as [ttd|] eqn:Httd;
    [|discriminate].
  rewrite bind_Ok.
  destruct (item (metadata st) 0) as [first|] eqn:Hfirst; [|discriminate].
  rewrite bind_Ok.
  destruct (last_item (metadata st)) as [last|] eqn:Hlast; [|discriminate].
  rewrite bind_Ok. intros [= <-]. cbn [final time_difference summary].
  split; [done|]. split; [done|]. by exists first, last.
Qed.

(** X10.  Whenever [process_folder] returns, the first row of its report
    gives, under "Data Capture (Pole)", the number of all directories
    below the root, at any depth and whether or not they hold images. *)
Theorem X10_pole_count_is_directory_count
    (read : string -> read_result) (parent_folder : string) (tree : dir)
    (folder_type : string) (rows : list row) :
  process_folder read parent_folder tree folder_type = Ok rows ->
  nth 0 rows []
  = [ Str (folder_type ++ " Data Capture (Pole)");
      Int (Z.of_nat (count_dirs tree)) ].
Proof.
  unfold process_folder.
  destruct (scan read parent_folder tree folder_type) as [st|];
    [|discriminate].
  rewrite bind_Ok.
  destruct (analyse folder_type _ (found st)) as [a|] eqn:Ha; [|discriminate].
  rewrite bind_Ok. intros [= <-].
  destruct (analyse_summary _ _ _ _ Ha) as (_ & _ & first & last & _ & _ & ->).
  cbn [nth app]. by rewrite length_list_folders.
Qed.

Lemma X10_witness :
  process_folder survey_read "root" survey "VISUAL"
  = Ok [ [Str "VISUAL Data Capture (Pole)"; Int 1];
         [Str "VISUAL Start Time"; Str "09:00:00"];
         [Str "VISUAL End Time"; Str "09:00:00"];
         [Str "VISUAL Hours Data Capture (By Battery Cycle)"; Str "0:00:00"];
         [Str "VISUAL Battery Cycles"; Int 1];
         [];
         header_row;
         [Str "2024:01:01"; Str "09:00:00"; Str "c.jpg"; Str "P1"; Str "";
          Str ""] ]
  /\ [Str "VISUAL Data Capture (Pole)"; Int 1]
     = [ Str ("VISUAL" ++ " Data Capture (Pole)");
         Int (Z.of_nat (count_dirs survey)) ].
Proof.
  assert (H : process_folder survey_read "root" survey "VISUAL"
              = Ok [ [Str "VISUAL Data Capture (Pole)"; Int 1];
                     [Str "VISUAL Start Time"; Str "09:00:00"];
                     [Str "VISUAL End Time"; Str "09:00:00"];
                     [Str "VISUAL Hours Data Capture (By Battery Cycle)";
                      Str "0:00:00"];
                     [Str "VISUAL Battery Cycles"; Int 1];
                     [];
                     header_row;
                     [Str "2024:01:01"; Str "09:00:00"; Str "c.jpg"; Str "P1";
                      Str ""; Str ""] ]) by reflexivity.
  split; [exact H|].
  exact (X10_pole_count_is_directory_count survey_read "root" survey "VISUAL"
           _ H).
Defined.

(** X11.  When the scan completes without a single record (no image with
    a DateTimeOriginal value below the root), [process_folder] does not
    return a report: it raises [IndexError]. *)
Theorem X11_no_record_raises
    (read : string -> read_result) (parent_folder : string) (tree : dir)
    (folder_type : string) :
  forallb (fields_ok read) (visited parent_folder tree) = true ->
  flat_map (records_of read folder_type) (visited parent_folder tree) = [] ->
  process_folder read parent_folder tree folder_type = Raise IndexError.
Proof.
  intros Hok Hnone. unfold process_folder.
  by rewrite scan_eq, Hok, Hnone.
Qed.

Lemma X11_witness :
  forallb (fields_ok no_tag) (visited "root" survey) = true
  /\ flat_map (records_of no_tag "VISUAL") (visited "root" survey) = []
  /\ process_folder no_tag "root" survey "VISUAL" = Raise IndexError.
Proof.
  assert (H1 : forallb (fields_ok no_tag) (visited "root" survey) = true)
    by reflexivity.
  assert (H2 : flat_map (records_of no_tag "VISUAL") (visited "root" survey)
               = []) by reflexivity.
  split; [exact H1|]. split; [exact H2|].
  exact (X11_no_record_raises no_tag "root" survey "VISUAL" H1 H2).
Defined.

(** X12.  A root folder without subfolders never yields a report,
    whatever images it holds directly and whatever they contain: no image
    is opened and [process_folder] raises [IndexError]. *)
Theorem X12_flat_root_raises
    (read : string -> read_result) (parent_folder : string)
    (files : list string) (folder_type : string) :
  scan read parent_folder (Dir [] files) folder_type = Ok (mk_scan [] [])
  /\ process_folder read parent_folder (Dir [] files) folder_type
     = Raise IndexError.
Proof.
  assert (Hscan : scan read parent_folder (Dir [] files) folder_type
                  = Ok (mk_scan [] [])) by reflexivity.
  split; [exact Hscan|]. unfold process_folder. by rewrite Hscan.
Qed.

Lemma sorted_bounds ts :
  Sorted Z.le ts -> forall t, In t ts -> hd 0 ts <= t <= List.last ts 0.
Proof.
  induction ts as [|t0 ts IH]; intros Hs t Hin; [done|].
  inversion Hs as [|? ? Hs' Hhd]; subst. cbn [hd].
  rewrite last_cons_head. destruct ts as [|t1 ts].
  - destruct Hin as [->|[]]. simpl. lia.
  - inversion Hhd; subst.
    pose proof (IH Hs' t1 (or_introl eq_refl)) as IH1. cbn [hd] in IH1.
    rewrite (last_cons_default t1 ts t0 0). destruct Hin as [->|Hin]; [lia|].
    specialize (IH Hs' t Hin). cbn [hd] in IH. lia.
Qed.







(** ** The command line *)

Lemma prompt_folder_chosen path_exists stdin folder_path rest :
  prompt_folder path_exists stdin = Answered (Some folder_path) rest ->
  path_exists folder_path = true.
Proof.
  induction stdin as [|line stdin IH]; cbn [prompt_folder]; [done|].
  destruct (is_empty (strip line)); [done|].
  destruct (path_exists (strip line)) eqn:Hexists; [|exact IH].
  by intros [= <- <-].
Qed.

(** X14.  The prompt of one category reads lines until one is blank, which
    skips the category, or names something that exists, which is chosen
    with the white space around it removed; every line before that one
    was neither.  A path that does not exist is never chosen.  When the
    input ends before such a line, every line was refused. *)
Theorem X14_prompt_folder (path_exists : string -> bool)
    (stdin : list string) :
  match prompt_folder path_exists stdin with
  | Answered choice rest =>
      exists before line,
        stdin = before ++ line :: rest
        /\ Forall (rejected path_exists) before
        /\ match choice with
           | Some folder_path =>
               folder_path = strip line
               /\ is_empty folder_path = false
               /\ path_exists folder_path = true
           | None => is_empty (strip line) = true
           end
  | NoMoreInput => Forall (rejected path_exists) stdin
  end.
Proof.
  induction stdin as [|line stdin IH]; cbn [prompt_folder]; [constructor|].
  destruct (is_empty (strip line)) eqn:Hempty.
  { exists [], line. by repeat split. }
  destruct (path_exists (strip line)) eqn:Hexists.
  { exists [], line. by repeat split. }
  destruct (prompt_folder path_exists stdin) as [choice rest|].
  - destruct IH as (before & line' & -> & Hrej & Hchoice).
    exists (line :: before), line'. split; [done|]. split; [|done].
    by constructor.
  - by constructor.
Qed.

(** A line of a no-break space and a next-line character is blank: it
    skips the category. *)
Lemma no_break_space_is_blank (path_exists : string -> bool)
    (rest : list string) :
  strip nbsp_line = EmptyString
  /\ prompt_folder path_exists (nbsp_line :: rest) = Answered None rest.
Proof. split; reflexivity. Qed.

Lemma length_written_rows visual_summary thermal_summary :
  length (written_rows visual_summary thermal_summary)
  = Nat.max (length visual_summary) (length thermal_summary).
Proof.
  unfold written_rows. rewrite length_zip_with, !pad_spec, !length_app.
  rewrite !repeat_length. lia.
Qed.

(** What the loop of one category did when it ended with an answer. *)
Lemma prompt_folder_Answered path_exists stdin choice rest :
  prompt_folder path_exists stdin = Answered choice rest ->
  exists before line,
    stdin = before ++ line :: rest
    /\ Forall (rejected path_exists) before
    /\ choice = chosen line.
Proof.
  induction stdin as [|line stdin IH]; cbn [prompt_folder]; [done|].
  destruct (is_empty (strip line)) eqn:Hempty.
  { intros [= <- <-]. exists [], line. unfold chosen. by rewrite Hempty. }
  destruct (path_exists (strip line)) eqn:Hexists.
  { intros [= <- <-]. exists [], line. unfold chosen. by rewrite Hempty. }
  intros Hp. destruct (IH Hp) as (before & line' & -> & Hrej & Hchoice).
  exists (line :: before), line'. split; [done|]. split; [|done].
  by constructor.
Qed.

(** X15.  The script writes a file only in one way.  The input begins
    with lines naming nothing that exists, then a line that answers the
    VISUAL prompt; then again such lines and a line that answers the
    THERMAL prompt; then the line of the file name.  An answer is a blank
    line, which skips the category, or the path of something that exists,
    taken without the white space around it; at least one category is not
    skipped.  Both reports were produced from these answers, the name is
    not blank, the file is called by that name, stripped and followed by
    [.csv], and it has as many rows as the longer of the two reports. *)
Theorem X15_main_writes
    (machine : string -> option dir) (read : string -> read_result)
    (stdin : list string) (csv_file_path : string) (rows : list row) :
  main machine read stdin = Wrote csv_file_path rows ->
  exists before_visual line_visual before_thermal line_thermal line_name rest
         visual_summary thermal_summary,
    stdin = before_visual ++ line_visual
              :: before_thermal ++ line_thermal :: line_name :: rest
    /\ Forall (rejected (exists_on machine)) before_visual
    /\ Forall (rejected (exists_on machine)) before_thermal
    /\ (chosen line_visual <> None \/ chosen line_thermal <> None)
    /\ (forall p, chosen line_visual = Some p \/ chosen line_thermal = Some p ->
                  machine p <> None)
    /\ summary_of machine read "VISUAL" (chosen line_visual)
       = Ok visual_summary
    /\ summary_of machine read "THERMAL" (chosen line_thermal)
       = Ok thermal_summary
    /\ is_empty (strip line_name) = false
    /\ csv_file_path = (strip line_name ++ ".csv")%string
    /\ rows = written_rows visual_summary thermal_summary
    /\ length rows
       = Nat.max (length visual_summary) (length thermal_summary).
Proof.
  unfold main. fold (exists_on machine).
  destruct (prompt_folder (exists_on machine) stdin) as [visual rest1|] eqn:Hv;
    [|done].
  destruct (prompt_folder (exists_on machine) rest1) as [thermal rest2|]
    eqn:Ht; [|done].
  intros Hmain.
  assert (Hchosen : visual <> None \/ thermal <> None).
  { destruct visual, thermal; try (by left); by right. }
  assert (Hrest :
    match summary_of machine read "VISUAL" visual with
    | Raise e => Uncaught e
    | Ok visual_summary =>
        match summary_of machine read "THERMAL" thermal with
        | Raise e => Uncaught e
        | Ok thermal_summary =>
            match rest2 with
            | [] => InputEnded
            | line :: _ =>
                if is_empty (strip line) then Exited 1
                else Wrote (strip line ++ ".csv")
                           (written_rows visual_summary thermal_summary)
            end
        end
    end = Wrote csv_file_path rows).
  { destruct visual, thermal; try exact Hmain. by destruct Hchosen. }
  clear Hmain.
  destruct (summary_of machine read "VISUAL" visual) as [vs|] eqn:Hvs;
    [|done].
  destruct (summary_of machine read "THERMAL" thermal) as [ts|] eqn:Hts;
    [|done].
  destruct rest2 as [|line rest3]; [done|].
  destruct (is_empty (strip line)) eqn:Hname; [done|].
  injection Hrest as <- <-.
  assert (Hexists : forall p, visual = Some p \/ thermal = Some p ->
                              machine p <> None).
  { intros p [->| ->];
      [apply prompt_folder_chosen in Hv | apply prompt_folder_chosen in Ht];
      unfold exists_on in *; by destruct (machine p). }
  destruct (prompt_folder_Answered _ _ _ _ Hv)
    as (before_visual & line_visual & -> & Hrej_v & ->).
  destruct (prompt_folder_Answered _ _ _ _ Ht)
    as (before_thermal & line_thermal & -> & Hrej_t & ->).
  exists before_visual, line_visual, before_thermal, line_thermal, line, rest3,
    vs, ts.
  repeat split; try done. apply length_written_rows.
Qed.

Lemma X15_witness :
  main survey_machine survey_read ["  root "; "nowhere"; nbsp_line; " out "]%string
  = Wrote "out.csv" (written_rows survey_report [])
  /\ exists before_visual line_visual before_thermal line_thermal line_name
            rest visual_summary thermal_summary,
       ["  root "; "nowhere"; nbsp_line; " out "]%string
       = before_visual ++ line_visual
           :: before_thermal ++ line_thermal :: line_name :: rest
       /\ Forall (rejected (exists_on survey_machine)) before_visual
       /\ Forall (rejected (exists_on survey_machine)) before_thermal
       /\ (chosen line_visual <> None \/ chosen line_thermal <> None)
       /\ (forall p,
             chosen line_visual = Some p \/ chosen line_thermal = Some p ->
             survey_machine p <> None)
       /\ summary_of survey_machine survey_read "VISUAL" (chosen line_visual)
          = Ok visual_summary
       /\ summary_of survey_machine survey_read "THERMAL"
            (chosen line_thermal)
          = Ok thermal_summary
       /\ is_empty (strip line_name) = false
       /\ "out.csv"%string = (strip line_name ++ ".csv")%string
       /\ written_rows survey_report []
          = written_rows visual_summary thermal_summary
       /\ length (written_rows survey_report [])
          = Nat.max (length visual_summary) (length thermal_summary).
Proof.
  assert (H : main survey_machine survey_read
                ["  root "; "nowhere"; nbsp_line; " out "]%string
              = Wrote "out.csv" (written_rows survey_report []))
    by reflexivity.
  split; [exact H|].
  exact (X15_main_writes survey_machine survey_read _ _ _ H).
Defined.

Lemma zip_with_repeat_r {A B C} (f : A -> B -> C) (y : B) (l : list A) :
  zip_with f l (repeat y (length l)) = map (fun x => f x y) l.
Proof. induction l as [|x l IH]; simpl; [done | by rewrite IH]. Qed.

Lemma zip_with_repeat_l {A B C} (f : A -> B -> C) (x : A) (l : list B) :
  zip_with f (repeat x (length l)) l = map (f x) l.
Proof. induction l as [|y l IH]; simpl; [done | by rewrite IH]. Qed.

(** X16.  When a category is skipped, its summary is empty and is padded
    in full: every written row is then the row of the other category
    with eight empty cells after it (THERMAL skipped) or before it (VISUAL
    skipped). *)
Theorem X16_one_category_only (other : list row) :
  written_rows other []
  = map (fun r => r ++ repeat (Str EmptyString) 8) other
  /\ written_rows [] other
     = map (fun r => repeat (Str EmptyString) 8 ++ r) other.
Proof.
  unfold written_rows. cbn [length]. rewrite Nat.max_0_r, Nat.max_0_l.
  rewrite !pad_spec. cbn [length]. rewrite Nat.sub_diag, Nat.sub_0_r.
  change (repeat empty_row 0) with (@nil row). rewrite app_nil_r.
  change ([] ++ repeat empty_row (length other))
    with (repeat empty_row (length other)).
  split.
  - rewrite zip_with_repeat_r. reflexivity.
  - rewrite zip_with_repeat_l. reflexivity.
Qed.

(** ** The two extremes: one cycle, and no two records together *)

Lemma walk_without_gap ts : forall t_prev c,
  large_gaps t_prev ts = 0 ->
  walk_annotations t_prev ts c = repeat (None, None) (length ts)
  /\ count (walk_counters t_prev ts c) = count c
  /\ total (walk_counters t_prev ts c) = total c
  /\ start (walk_counters t_prev ts c)
     = match ts with
       | [] => start c
       | _ :: _ => Some (default t_prev (start c))
       end.
Proof.
  induction ts as [|t ts IH]; intros t_prev c Hgaps; [done|].
  cbn [large_gaps] in Hgaps. pose proof (large_gaps_nonneg ts t) as Hnn.
  destruct (60 <=? t - t_prev) eqn:Hgap; [lia|].
  cbn [walk_annotations walk_counters length repeat].
  unfold step_annotation, step_counters. rewrite Hgap.
  destruct (IH t (mk_counters (count c)
                    (match start c with
                     | Some s => Some s
                     | None => Some t_prev
                     end)
                    (total c)) ltac:(lia)) as (-> & -> & -> & ->).
  cbn [count total start]. repeat split.
  destruct ts, (start c); reflexivity.
Qed.

Lemma annotate_nothing k : forall l, annotate (repeat (None, None) k) l = l.
Proof.
  induction k as [|k IH]; intros [|d l]; simpl; try done.
  rewrite IH. by destruct d.
Qed.

Lemma last_in {A} (l : list A) (d : A) : l <> [] -> In (List.last l d) l.
Proof.
  induction l as [|x l IH]; [done|]. intros _.
  destruct l as [|y l]; [by left|]. right. by apply IH.
Qed.

(** The time from the first to the last of sorted times of day is less
    than a day. *)
Lemma span_within_a_day (l : list props) (ts : list Z) :
  times_of l ts -> Sorted Z.le ts -> ts <> [] ->
  within_a_day (List.last ts 0 - hd 0 ts).
Proof.
  intros H Hs Hne. pose proof (times_of_within_a_day l ts H) as Hday.
  rewrite List.Forall_forall in Hday.
  destruct ts as [|t0 ts]; [done|].
  pose proof (Hday t0 (or_introl eq_refl)) as H0.
  pose proof (Hday _ (last_in (t0 :: ts) 0 Hne)) as H1.
  pose proof (sorted_bounds _ Hs t0 (or_introl eq_refl)) as H2.
  cbn [hd] in *. unfold within_a_day. lia.
Qed.

(** X17.  When no gap between consecutive records reaches 60 seconds
    (records taken at the same time included), two or more sorted records
    form one cycle: segmentation changes the last record only, which gets
    CYCLE 1 and the time from the first to the last record; the cycle
    count is 1 and the total cycle duration is that same time.  The last
    record of the result reads [CYCLE 1] under CycleCount and, under
    CycleTotalHour, a text that reads back as that time; its other fields
    are those of the last record of the input. *)
Theorem X17_single_cycle (l : list props) (ts : list Z) :
  times_of l ts -> Sorted Z.le ts ->
  boundaries ts = 0 ->
  (2 <= length l)%nat ->
  exists st front d,
    segment l = Ok st
    /\ l = front ++ [d]
    /\ metadata st
       = front ++ [set_CycleTotalHour
                     (str_timedelta (List.last ts 0 - hd 0 ts))
                     (set_CycleCount (cycle_label 1) d)]
    /\ cycle_count st = 1
    /\ total_cycle_duration st = List.last ts 0 - hd 0 ts
    /\ exists d',
         metadata st = front ++ [d']
         /\ CycleCount d' = Some "CYCLE 1"%string
         /\ CycleTotalHour d'
            = Some (str_timedelta (List.last ts 0 - hd 0 ts))
         /\ strptime (str_timedelta (List.last ts 0 - hd 0 ts))
            = Ok (List.last ts 0 - hd 0 ts)
         /\ clear_labels d' = clear_labels d.
Proof.
  intros H Hs Hb Hlen.
  assert (Hspan : within_a_day (List.last ts 0 - hd 0 ts)).
  { apply (span_within_a_day l ts H Hs). intros ->.
    apply times_of_length in H. simpl in H. lia. }
  apply str_timedelta_reads_back in Hspan.
  destruct H as [|d0 t0 l ts Hd Hl]; [simpl in Hlen; lia|].
  assert (H : times_of (d0 :: l) (t0 :: ts)) by (by constructor).
  destruct (annotate_walk_snoc d0 l t0 ts initial H)
    as (front & e & Heq & He & _).
  assert (Hts : ts <> []).
  { intros ->. inversion Hl; subst. simpl in Hlen. lia. }
  destruct (walk_without_gap ts t0 initial Hb)
    as (Hanns & Hcount & Htotal & Hstart).
  assert (Hstart' : start (walk_counters t0 ts initial) = Some t0)
    by (rewrite Hstart; by destruct ts).
  exists (with_metadata (annotate (annotations (t0 :: ts)) (d0 :: l))
                        (final_counters (t0 :: ts))), front, e.
  split; [by apply segment_sorted|]. split; [done|].
  unfold annotations, final_counters, close_annotation, close_counters.
  rewrite Hstart', Hanns, Hcount, Htotal, Heq.
  cbn [metadata with_metadata cycle_count total_cycle_duration count total
       initial hd].
  cbn [hd] in Hspan. rewrite (last_cons_head t0 ts 0) in Hspan.
  rewrite (last_cons_head t0 ts 0).
  assert (Hfront : length (repeat (@pair (option Z) (option Z) None None)
                                  (length ts)) = length front).
  { rewrite repeat_length, <- (times_of_length _ _ Hl).
    apply (f_equal length) in Heq. rewrite length_app in Heq.
    simpl in Heq. lia. }
  rewrite annotate_app by exact Hfront. rewrite annotate_nothing.
  split; [reflexivity|]. split; [done|]. split; [lia|].
  eexists. split; [reflexivity|].
  split; [reflexivity|]. split; [reflexivity|]. split; [exact Hspan|].
  reflexivity.
Qed.

Lemma X17_witness :
  times_of [ fresh "2024:01:01" "09:00:00" "a.jpg" "P1" "VISUAL";
                 fresh "2024:01:01" "09:00:30" "x.jpg" "P1" "VISUAL";
                 fresh "2024:01:01" "09:00:30" "y.jpg" "P2" "VISUAL" ]
           [32400; 32430; 32430]
  /\ exists st front d,
       segment [ fresh "2024:01:01" "09:00:00" "a.jpg" "P1" "VISUAL";
                 fresh "2024:01:01" "09:00:30" "x.jpg" "P1" "VISUAL";
                 fresh "2024:01:01" "09:00:30" "y.jpg" "P2" "VISUAL" ] = Ok st
       /\ [ fresh "2024:01:01" "09:00:00" "a.jpg" "P1" "VISUAL";
                 fresh "2024:01:01" "09:00:30" "x.jpg" "P1" "VISUAL";
                 fresh "2024:01:01" "09:00:30" "y.jpg" "P2" "VISUAL" ]
          = front ++ [d]
       /\ metadata st
          = front ++ [set_CycleTotalHour
                        (str_timedelta
                           (List.last [32400; 32430; 32430] 0
                            - hd 0 [32400; 32430; 32430]))
                        (set_CycleCount (cycle_label 1) d)]
       /\ cycle_count st = 1
       /\ total_cycle_duration st
          = List.last [32400; 32430; 32430] 0 - hd 0 [32400; 32430; 32430]
       /\ exists d',
            metadata st = front ++ [d']
            /\ CycleCount d' = Some "CYCLE 1"%string
            /\ CycleTotalHour d'
               = Some (str_timedelta
                         (List.last [32400; 32430; 32430] 0
                          - hd 0 [32400; 32430; 32430]))
            /\ strptime (str_timedelta
                           (List.last [32400; 32430; 32430] 0
                            - hd 0 [32400; 32430; 32430]))
               = Ok (List.last [32400; 32430; 32430] 0
                     - hd 0 [32400; 32430; 32430])
            /\ clear_labels d' = clear_labels d.
Proof.
  assert (H : times_of
                [ fresh "2024:01:01" "09:00:00" "a.jpg" "P1" "VISUAL";
                 fresh "2024:01:01" "09:00:30" "x.jpg" "P1" "VISUAL";
                 fresh "2024:01:01" "09:00:30" "y.jpg" "P2" "VISUAL" ]
                [32400; 32430; 32430]) by (repeat constructor).
  assert (Hs : Sorted Z.le [32400; 32430; 32430])
    by (repeat constructor; unfold Z.le; simpl; discriminate).
  split; [exact H|].
  exact (X17_single_cycle _ [32400; 32430; 32430] H Hs eq_refl
           ltac:(simpl; lia)).
Defined.

Lemma large_gaps_le_length ts : forall t_prev,
  large_gaps t_prev ts <= Z.of_nat (length ts).
Proof.
  induction ts as [|t ts IH]; intros t_prev; simpl length; simpl large_gaps;
    [lia|].
  specialize (IH t). destruct (60 <=? t - t_prev); lia.
Qed.

Lemma walk_all_gaps ts : forall t_prev c,
  large_gaps t_prev ts = Z.of_nat (length ts) ->
  start c = None ->
  Forall (fun a : annotation => a.2 = None) (walk_annotations t_prev ts c)
  /\ start (walk_counters t_prev ts c) = None
  /\ total (walk_counters t_prev ts c) = total c.
Proof.
  induction ts as [|t ts IH]; intros t_prev c Hgaps Hc; [by repeat split|].
  cbn [large_gaps length] in Hgaps.
  pose proof (large_gaps_le_length ts t) as Hle.
  destruct (60 <=? t - t_prev) eqn:Hgap; [|lia].
  cbn [walk_annotations walk_counters].
  unfold step_annotation, step_counters. rewrite Hgap, Hc.
  destruct (IH t (mk_counters (count c + 1) None (total c)) ltac:(lia)
              eq_refl) as (Hanns & -> & ->).
  split; [by constructor | done].
Qed.

Lemma CycleTotalHour_annotate_none anns : forall l,
  Forall (fun a : annotation => a.2 = None) anns ->
  map CycleTotalHour (annotate anns l) = map CycleTotalHour l.
Proof.
  induction anns as [|a anns IH]; intros [|d l] Ha; simpl; try done.
  inversion Ha as [|? ? Ha1 Ha2]; subst.
  rewrite CycleTotalHour_apply_annotation, Ha1, IH by done. reflexivity.
Qed.

(** X18.  When every gap between consecutive records is 60 seconds or
    more, segmentation assigns no cycle duration at all: the total cycle
    duration is 0, although the cycle count equals the number of
    records. *)
Theorem X18_isolated_records (l : list props) (ts : list Z) :
  times_of l ts -> Sorted Z.le ts ->
  l <> [] ->
  boundaries ts = Z.of_nat (length ts) - 1 ->
  exists st,
    segment l = Ok st
    /\ map CycleTotalHour (metadata st) = map CycleTotalHour l
    /\ total_cycle_duration st = 0
    /\ cycle_count st = Z.of_nat (length l).
Proof.
  intros H Hs Hne Hb. eexists. split; [by apply segment_sorted|].
  cbn [metadata with_metadata total_cycle_duration cycle_count].
  rewrite count_final_counters, Hb, (times_of_length _ _ H).
  destruct ts as [|t0 ts]; [inversion H; by subst|].
  cbn [boundaries length] in Hb.
  destruct (walk_all_gaps ts t0 initial ltac:(lia) eq_refl)
    as (Hanns & Hstart & Htotal).
  unfold annotations, final_counters, close_annotation, close_counters.
  rewrite Hstart, Htotal. split; [|split; [done | lia]].
  apply CycleTotalHour_annotate_none, Forall_app. split; [done|].
  by constructor.
Qed.

Lemma X18_witness :
  times_of [ fresh "2024:01:01" "09:00:00" "a.jpg" "P1" "VISUAL";
             fresh "2024:01:01" "09:05:00" "c.jpg" "P2" "VISUAL" ]
           [32400; 32700]
  /\ exists st,
       segment [ fresh "2024:01:01" "09:00:00" "a.jpg" "P1" "VISUAL";
                 fresh "2024:01:01" "09:05:00" "c.jpg" "P2" "VISUAL" ] = Ok st
       /\ map CycleTotalHour (metadata st) = [None; None]
       /\ total_cycle_duration st = 0
       /\ cycle_count st = 2.
Proof.
  assert (H : times_of
                [ fresh "2024:01:01" "09:00:00" "a.jpg" "P1" "VISUAL";
                  fresh "2024:01:01" "09:05:00" "c.jpg" "P2" "VISUAL" ]
                [32400; 32700]) by (repeat constructor).
  assert (Hs : Sorted Z.le [32400; 32700])
    by (repeat constructor; unfold Z.le; simpl; discriminate).
  split; [exact H|].
  exact (X18_isolated_records _ [32400; 32700] H Hs ltac:(discriminate)
           eq_refl).
Defined.

(** ** Bounds on what is reported *)



(** X19.  Whenever segmentation completes on at least one record, the
    cycle count is at least 1 and at most the number of records. *)
Theorem X19_cycle_count_bounds (md : list props) (st : walk_state) :
  segment md = Ok st ->
  md <> [] ->
  1 <= cycle_count st <= Z.of_nat (length md).
Proof.
  intros Hseg Hne. destruct (segment_Ok_times md st Hseg) as (keys & H).
  rewrite (segment_refines md keys H) in Hseg. injection Hseg as <-.
  destruct (sort_metadata_refines md keys H) as (_ & Ht & _).
  cbn [cycle_count with_metadata]. rewrite count_final_counters.
  rewrite <- (Permutation_length (sorted_records_perm md keys H)).
  rewrite (times_of_length _ _ Ht).
  destruct (sorted_times keys md) as [|t0 ts].
  { apply times_of_length in Ht.
    rewrite (Permutation_length (sorted_records_perm md keys H)) in Ht.
    by destruct md. }
  cbn [boundaries length].
  pose proof (large_gaps_nonneg ts t0). pose proof (large_gaps_le_length ts t0).
  lia.
Qed.

Lemma X19_witness :
  segment (rev scenario)
  = Ok (mk_walk
          (annotate [(None, None); (Some 1, Some 30); (None, None);
                     (Some 2, Some 20)] scenario)
          2 (Some 32700) 50)
  /\ rev scenario <> []
  /\ 1 <= 2 <= Z.of_nat (length (rev scenario)).
Proof.
  assert (H : segment (rev scenario)
              = Ok (mk_walk
                      (annotate [(None, None); (Some 1, Some 30); (None, None);
                                 (Some 2, Some 20)] scenario)
                      2 (Some 32700) 50)) by reflexivity.
  assert (Hne : rev scenario <> []) by discriminate.
  split; [exact H|]. split; [exact Hne|].
  exact (X19_cycle_count_bounds (rev scenario) _ H Hne).
Defined.
